(** * The LR(1) driver of [parsing/lrparser.py]

    A shallow embedding of class [Lr]: the parse stack, the decision loop
    [_act], the reduction engine [_reduce] / [_production], the protocol
    methods [reset], [token], [eoi], the constructor and the optional
    trace.  Python exceptions are explicit outcomes, the [while True] loop
    of [_act] runs on fuel, and objects are references into a store so that
    identity ([is], default [==]) and mutation by semantic handlers are
    visible. *)

From Stdlib Require Import ZArith List Bool Lia.
From stdpp Require Import base option list countable gmap.

Open Scope Z_scope.

(** Closed equations between computed values are checked by evaluation,
    in the kernel, when the proof is closed. *)
Ltac by_vm :=
  match goal with
  | |- ?a = ?b => vm_cast_no_check (@eq_refl _ b)
  end.

(** ** Objects and symbols *)

(** The runtime class of a symbol instance: the two sentinel classes of
    [parsing.grammar] and the user's token / nonterminal classes. *)
Inductive PyType : Type :=
  | EpsilonT
  | EndOfInputT
  | UserT (n : nat).

#[global] Instance PyType_eq_dec : EqDecision PyType.
Proof. solve_decision. Defined.

Definition PyType_code (t : PyType) : nat :=
  match t with EpsilonT => 0%nat | EndOfInputT => 1%nat | UserT n => S (S n) end.

Definition PyType_decode (n : nat) : PyType :=
  match n with 0%nat => EpsilonT | 1%nat => EndOfInputT | S (S k) => UserT k end.

#[global] Instance PyType_countable : Countable PyType.
Proof.
  apply (inj_countable' PyType_code PyType_decode).
  intros [| |n]; reflexivity.
Defined.

(** A symbol instance is an object reference: its identity and its class.
    What a handler stores in the object lives in the store, under the
    identity, so that a mutated placeholder is seen through every alias. *)
Record Symbol : Type := mkSymbol { sym_id : nat; sym_type : PyType }.

#[global] Instance Symbol_eq_dec : EqDecision Symbol.
Proof. solve_decision. Defined.

(** The object store: the next free identity and the attribute each object
    carries (its semantic value). *)
Record Store : Type := mkStore { next_id : nat; attrs : gmap nat Z }.

(** [cls(parser)]: a new object of class [cls]. *)
Definition new_object (cls : PyType) (h : Store) : Symbol * Store :=
  (mkSymbol (next_id h) cls, mkStore (S (next_id h)) (attrs h)).

(** ** The compiled specification, as the driver reads it *)

(** A [SymbolSpec] is a dictionary key; it is identified by its sequence
    number. *)
Definition Descriptor : Type := nat.

(** [NontermSpec]: the key and the class instantiated on reduction. *)
Record NontermSpec : Type := mkNontermSpec
  { nt_key : Descriptor; nontermType : PyType }.

(** What [production.method(sym, *rhs)] does: it may mutate the store and
    returns [None] or an object, or it raises.  A handler is a function of
    the symbol objects it is given (section 3 of the specification): one
    that reaches back into the parser instance through them, or prints, is
    not covered. *)
Inductive HandlerResult : Type :=
  | HReturn (h : Store) (r : option Symbol)
  | HRaise (h : Store).

Record Production : Type := mkProduction
  { lhs : NontermSpec;
    rhs : list Descriptor;
    method : Store -> Symbol -> list Symbol -> HandlerResult }.

Inductive Action : Type :=
  | ShiftAction (nextState : Z)
  | ReduceAction (production : Production).

(** The fields of [Spec] used by [Lr].  [_action] and [_goto] are lists
    indexed by state, each row a dictionary; [pureLR] is a property of
    [Spec] computed outside this file. *)
Record Spec : Type := mkSpec
  { _sym2spec : gmap PyType Descriptor;
    _action : list (gmap Descriptor (list Action));
    _goto : list (gmap Descriptor Z);
    _userStartSym : Descriptor;
    _nConflicts : Z;
    pureLR : bool }.

(** ** Exceptions, trace and state *)

Inductive Exn : Type :=
  | UnexpectedToken (sym : Symbol)
  | AssertionError
  | KeyError
  | IndexError
  | HandlerException.

Definition is_UnexpectedToken (e : Exn) : bool :=
  match e with UnexpectedToken _ => true | _ => false end.

(** What the trace prints, one event per [print] group. *)
Inductive TraceEvent : Type :=
  | PrintStack (stack : list (Symbol * Z))
  | PrintInput (sym : Symbol)
  | PrintAction (a : Action)
  | PrintAccept.

(** The instance fields of [Lr] together with the ambient interpreter
    state its methods touch: the object store and standard output. *)
Record State : Type := mkState
  { _spec : Spec;
    _start : option (list Symbol);
    _stack : list (Symbol * Z);
    _verbose : bool;
    heap : Store;
    stdout : list TraceEvent }.

Definition set_start (v : option (list Symbol)) (s : State) : State :=
  mkState (_spec s) v (_stack s) (_verbose s) (heap s) (stdout s).
Definition set_stack (v : list (Symbol * Z)) (s : State) : State :=
  mkState (_spec s) (_start s) v (_verbose s) (heap s) (stdout s).
Definition set_verbose (v : bool) (s : State) : State :=
  mkState (_spec s) (_start s) (_stack s) v (heap s) (stdout s).
Definition set_heap (v : Store) (s : State) : State :=
  mkState (_spec s) (_start s) (_stack s) (_verbose s) v (stdout s).
Definition print (ev : TraceEvent) (s : State) : State :=
  mkState (_spec s) (_start s) (_stack s) (_verbose s) (heap s) (stdout s ++ [ev]).

(** A call returns or raises; either way the state it leaves is kept. *)
Inductive Outcome : Type :=
  | Returned (s : State)
  | Raised (e : Exn) (s : State).

(** ** Python lists *)

(** [l[i]] for an [int] index: a negative index counts from the end;
    [None] is [IndexError]. *)
Definition py_getitem {A : Type} (l : list A) (i : Z) : option A :=
  if 0 <=? i then l !! Z.to_nat i
  else if 0 <=? Z.of_nat (length l) + i then l !! Z.to_nat (Z.of_nat (length l) + i)
  else None.

(** [range(a, b)]. *)
Definition py_range (a b : Z) : list Z := seqZ a (b - a).

(** [n] times [l.pop()]: the list left, or [None] when a pop found the
    list empty (the list is then empty). *)
Fixpoint pop_n (n : nat) (l : list (Symbol * Z)) : option (list (Symbol * Z)) :=
  match n with
  | O => Some l
  | S k => match l with
           | [] => None
           | _ => pop_n k (removelast l)
           end
  end.

(** ** The engine *)

Section Engine.

(** Python's [__debug__]: [assert] statements run only when it is true
    (the interpreter's default; [-O] clears it). *)
Variable __debug__ : bool.

(** [reset]: a new [Epsilon] instance at state 0, no result. *)
Definition reset (s : State) : State :=
  let '(eps, h) := new_object EpsilonT (heap s) in
  set_stack [(eps, 0)] (set_start None (set_heap h s)).

(** [__init__]: [exact] is [type(self) == Lr]. *)
Inductive Constructed : Type :=
  | Instance (s : State)
  | CtorRaised (e : Exn).

Definition __init__ (exact : bool) (spec : Spec) (h : Store)
    (out : list TraceEvent) : Constructed :=
  if __debug__ && exact && negb (pureLR spec) then CtorRaised AssertionError
  else if __debug__ && negb (_nConflicts spec =? 0) then CtorRaised AssertionError
  else
    let s := reset (mkState spec None [] false h out) in
    Instance (set_verbose false s).

(** The [verbose] property setter; its [assert] holds for every [bool]. *)
Definition setVerbose (verbose : bool) (s : State) : State :=
  set_verbose verbose s.

Definition _printStack (s : State) : State := print (PrintStack (_stack s)) s.

(** [_production]: build the placeholder, call the handler, default to
    the placeholder. *)
Inductive Produced : Type :=
  | ProdOk (r : Symbol) (h : Store)
  | ProdRaised (e : Exn) (h : Store).

Definition _production (production : Production) (rhs_syms : list Symbol)
    (h : Store) : Produced :=
  let '(sym, h1) := new_object (nontermType (lhs production)) h in
  let nRhs := length rhs_syms in
  if __debug__ && negb (nRhs =? length (rhs production))%nat
  then ProdRaised AssertionError h1
  else
    match method production h1 sym rhs_syms with
    | HRaise h2 => ProdRaised HandlerException h2
    | HReturn h2 r =>
        match r with
        | None => ProdOk sym h2
        | Some r' => ProdOk r' h2
        end
    end.

(** The first loop of [_reduce]: the symbols at the given indices. *)
Definition collect_rhs (stack : list (Symbol * Z)) (idx : list Z)
    : option (list Symbol) :=
  mapM (fun i => fst <$> py_getitem stack i) idx.

Definition _reduce (production : Production) (s : State) : Outcome :=
  let nRhs := length (rhs production) in
  let len := Z.of_nat (length (_stack s)) in
  match collect_rhs (_stack s) (py_range (len - Z.of_nat nRhs) len) with
  | None => Raised IndexError s
  | Some rhs_syms =>
      match _production production rhs_syms (heap s) with
      | ProdRaised e h => Raised e (set_heap h s)
      | ProdOk r h =>
          let s1 := set_heap h s in
          match pop_n nRhs (_stack s1) with
          | None => Raised IndexError (set_stack [] s1)
          | Some st =>
              let s2 := set_stack st s1 in
              match py_getitem st (-1) with
              | None => Raised IndexError s2
              | Some top =>
                  match py_getitem (_goto (_spec s2)) (snd top) with
                  | None => Raised IndexError s2
                  | Some row =>
                      match row !! nt_key (lhs production) with
                      | None => Raised KeyError s2
                      | Some g => Returned (set_stack (st ++ [(r, g)]) s2)
                      end
                  end
              end
          end
      end
  end.

(** One turn of the [while True] body of [_act]. *)
Inductive Iter : Type :=
  | Break (s : State)
  | Continue (s : State)
  | Abort (e : Exn) (s : State).

Definition act_iter (sym : Symbol) (symSpec : Descriptor) (s : State) : Iter :=
  match py_getitem (_stack s) (-1) with
  | None => Abort IndexError s
  | Some top =>
      match py_getitem (_action (_spec s)) (snd top) with
      | None => Abort IndexError s
      | Some row =>
          match row !! symSpec with
          | None => Abort (UnexpectedToken sym) s
          | Some actions =>
              if __debug__ && negb (length actions =? 1)%nat
              then Abort AssertionError s
              else
                match actions !! 0%nat with
                | None => Abort IndexError s
                | Some action =>
                    let s1 := if _verbose s then print (PrintAction action) s else s in
                    match action with
                    | ShiftAction nextState =>
                        Break (set_stack (_stack s1 ++ [(sym, nextState)]) s1)
                    | ReduceAction production =>
                        match _reduce production s1 with
                        | Raised e s2 => Abort e s2
                        | Returned s2 =>
                            Continue (if _verbose s2 then _printStack s2 else s2)
                        end
                    end
                end
          end
      end
  end.

(** The loop itself; [None] when the fuel runs out. *)
Fixpoint act_loop (fuel : nat) (sym : Symbol) (symSpec : Descriptor)
    (s : State) : option Outcome :=
  match fuel with
  | O => None
  | S f =>
      match act_iter sym symSpec s with
      | Break s' => Some (Returned s')
      | Abort e s' => Some (Raised e s')
      | Continue s' => act_loop f sym symSpec s'
      end
  end.

Definition _act (fuel : nat) (sym : Symbol) (symSpec : Descriptor)
    (s : State) : option Outcome :=
  let s0 := if _verbose s then print (PrintInput sym) (_printStack s) else s in
  act_loop fuel sym symSpec s0.

Definition token (fuel : nat) (tok : Symbol) (s : State) : option Outcome :=
  match _sym2spec (_spec s) !! sym_type tok with
  | None => Some (Raised KeyError s)
  | Some tokenSpec => _act fuel tok tokenSpec s
  end.

(** The part of [eoi] after [self.token(token)] has returned. *)
Definition eoi_finish (tok : Symbol) (s1 : State) : Outcome :=
  let check_top :=
    if __debug__ then
      match py_getitem (_stack s1) (-1) with
      | None => Some IndexError
      | Some top => if decide (fst top = tok) then None else Some AssertionError
      end
    else None in
  match check_top with
  | Some e => Raised e s1
  | None =>
      let s2 := if _verbose s1 then print PrintAccept (_printStack s1) else s1 in
      match _stack s2 with
      | [] => Raised IndexError s2
      | _ =>
          let s3 := set_stack (removelast (_stack s2)) s2 in
          match py_getitem (_stack s3) 1 with
          | None => Raised IndexError s3
          | Some slot =>
              let s4 := set_start (Some [fst slot]) s3 in
              if __debug__ then
                match _sym2spec (_spec s4) !! sym_type (fst slot) with
                | None => Raised KeyError s4
                | Some d =>
                    if decide (d = _userStartSym (_spec s4)) then Returned s4
                    else Raised AssertionError s4
                end
              else Returned s4
          end
      end
  end.

Definition eoi (fuel : nat) (s : State) : option Outcome :=
  let '(tok, h) := new_object EndOfInputT (heap s) in
  match token fuel tok (set_heap h s) with
  | None => None
  | Some (Raised e s1) => Some (Raised e s1)
  | Some (Returned s1) => Some (eoi_finish tok s1)
  end.

(** ** Sequences of calls *)

Inductive Op : Type :=
  | OpToken (tok : Symbol)
  | OpEoi
  | OpReset
  | OpSetVerbose (b : bool).

Definition run_op (fuel : nat) (op : Op) (s : State) : option Outcome :=
  match op with
  | OpToken tok => token fuel tok s
  | OpEoi => eoi fuel s
  | OpReset => Some (Returned (reset s))
  | OpSetVerbose b => Some (Returned (setVerbose b s))
  end.

(** A driver that stops at the first exception. *)
Fixpoint run (fuel : nat) (ops : list Op) (s : State) : option Outcome :=
  match ops with
  | [] => Some (Returned s)
  | op :: rest =>
      match run_op fuel op s with
      | Some (Returned s') => run fuel rest s'
      | other => other
      end
  end.

(** Feeding tokens one by one: the number of tokens consumed before the
    outcome, and the outcome. *)
Fixpoint feed (fuel : nat) (toks : list Symbol) (s : State)
    : option (nat * Outcome) :=
  match toks with
  | [] => Some (0%nat, Returned s)
  | tok :: rest =>
      match token fuel tok s with
      | None => None
      | Some (Raised e s') => Some (0%nat, Raised e s')
      | Some (Returned s') =>
          match feed fuel rest s' with
          | None => None
          | Some (i, o) => Some (S i, o)
          end
      end
  end.

End Engine.

(** ** A compiled specification: [E -> E '+' T | T], [T -> number | '(' E ')']

    The tables of the grammar of the specification's scenarios, extended
    with parentheses, with the start production [<S> -> E <$>] the compiler
    adds: state 1 shifts the end-of-input sentinel. *)

Module Arith.

Definition NumT : PyType := UserT 0.
Definition PlusT : PyType := UserT 1.
Definition ET : PyType := UserT 2.
Definition TT : PyType := UserT 3.
Definition LparT : PyType := UserT 4.
Definition RparT : PyType := UserT 5.

Definition d_eps : Descriptor := 0%nat.
Definition d_eoi : Descriptor := 1%nat.
Definition d_num : Descriptor := 2%nat.
Definition d_plus : Descriptor := 3%nat.
Definition d_E : Descriptor := 4%nat.
Definition d_T : Descriptor := 5%nat.
Definition d_lpar : Descriptor := 6%nat.
Definition d_rpar : Descriptor := 7%nat.

Definition value (h : Store) (x : Symbol) : Z := default 0 (attrs h !! sym_id x).

Definition set_value (x : Symbol) (v : Z) (h : Store) : Store :=
  mkStore (next_id h) (<[sym_id x := v]> (attrs h)).

(** Handlers in the library's style: they fill the placeholder and
    return nothing. *)
Definition copy_value (h : Store) (sym : Symbol) (args : list Symbol)
    : HandlerResult :=
  match args with
  | [a] => HReturn (set_value sym (value h a) h) None
  | _ => HRaise h
  end.

Definition add_values (h : Store) (sym : Symbol) (args : list Symbol)
    : HandlerResult :=
  match args with
  | [a; _; b] => HReturn (set_value sym (value h a + value h b) h) None
  | _ => HRaise h
  end.

(** A handler with an explicit [return]: the parenthesised expression
    itself stands for the term. *)
Definition inner (h : Store) (sym : Symbol) (args : list Symbol)
    : HandlerResult :=
  match args with
  | [_; e; _] => HReturn h (Some e)
  | _ => HRaise h
  end.

Definition p_T_num : Production := mkProduction (mkNontermSpec d_T TT) [d_num] copy_value.
Definition p_E_T : Production := mkProduction (mkNontermSpec d_E ET) [d_T] copy_value.
Definition p_E_plus : Production :=
  mkProduction (mkNontermSpec d_E ET) [d_E; d_plus; d_T] add_values.
Definition p_T_paren : Production :=
  mkProduction (mkNontermSpec d_T TT) [d_lpar; d_E; d_rpar] inner.

Definition on_follow (p : Production) : gmap Descriptor (list Action) :=
  {[ d_eoi := [ReduceAction p]; d_plus := [ReduceAction p];
     d_rpar := [ReduceAction p] ]}.

Definition on_operand : gmap Descriptor (list Action) :=
  {[ d_num := [ShiftAction 3]; d_lpar := [ShiftAction 7] ]}.

Definition spec : Spec :=
  mkSpec
    {[ EpsilonT := d_eps; EndOfInputT := d_eoi; NumT := d_num;
       PlusT := d_plus; ET := d_E; TT := d_T; LparT := d_lpar;
       RparT := d_rpar ]}
    [ on_operand;
      {[ d_eoi := [ShiftAction 4]; d_plus := [ShiftAction 5] ]};
      on_follow p_E_T;
      on_follow p_T_num;
      ∅;
      on_operand;
      on_follow p_E_plus;
      on_operand;
      {[ d_rpar := [ShiftAction 9]; d_plus := [ShiftAction 5] ]};
      on_follow p_T_paren ]
    [ {[ d_E := 1; d_T := 2 ]}; ∅; ∅; ∅; ∅; {[ d_T := 6 ]}; ∅;
      {[ d_E := 8; d_T := 2 ]}; ∅; ∅ ]
    d_E 0 true.

(** The lexer's tokens: objects 0 to 4, the numbers' values in the
    store. *)
Definition num3 : Symbol := mkSymbol 0 NumT.
Definition plus : Symbol := mkSymbol 1 PlusT.
Definition num4 : Symbol := mkSymbol 2 NumT.
Definition lpar : Symbol := mkSymbol 3 LparT.
Definition rpar : Symbol := mkSymbol 4 RparT.

Definition store0 : Store := mkStore 5 {[ 0%nat := 3; 2%nat := 4 ]}.

Definition fresh (debug : bool) : State :=
  match __init__ debug true spec store0 [] with
  | Instance s => s
  | CtorRaised _ => mkState spec None [] false store0 []
  end.

(** The state a call leaves, whether it returned or raised. *)
Definition state_after (o : option Outcome) (s : State) : State :=
  match o with
  | Some (Returned s') => s'
  | Some (Raised _ s') => s'
  | None => s
  end.

Definition after (debug : bool) (ops : list Op) : State :=
  state_after (run debug 10 ops (fresh debug)) (fresh debug).

Definition reduced (debug : bool) (p : Production) (s : State) : State :=
  match _reduce debug p s with
  | Returned s' => s'
  | Raised _ s' => s'
  end.

(** [3 + 4] read, [4] already reduced to a term: the stack holds
    [E '+' T] above the bottom entry. *)
Definition sum_on_stack (debug : bool) : State :=
  reduced debug p_T_num
    (after debug [OpToken num3; OpToken plus; OpToken num4]).

(** The state reached by feeding tokens to a parser just reset. *)
Definition fed (debug : bool) (toks : list Symbol) : State :=
  match feed debug 10 toks (reset (fresh debug)) with
  | Some (_, Returned s') => s'
  | Some (_, Raised _ s') => s'
  | None => fresh debug
  end.

Definition result_values (s : State) : option (list (PyType * Z)) :=
  (fun l => map (fun x => (sym_type x, value (heap s) x)) l) <$> _start s.

Definition raised (o : option Outcome) : option Exn :=
  match o with
  | Some (Raised e _) => Some e
  | _ => None
  end.

End Arith.

(** ** The decision loop, step by step *)

(** The state on which the loop of [_act] starts: with tracing on, the
    stack and the incoming symbol have been printed. *)
Definition act_entry (sym : Symbol) (s : State) : State :=
  if _verbose s then print (PrintInput sym) (_printStack s) else s.

(** One completed reduction of the loop: the turn ends in [Continue]. *)
Definition reduce_step (debug : bool) (sym : Symbol) (symSpec : Descriptor)
    (s s' : State) : Prop :=
  act_iter debug sym symSpec s = Continue s'.

(** The state on top of the stack has a row in the action table and the
    row has no entry for the descriptor. *)
Definition no_action (symSpec : Descriptor) (s : State) : bool :=
  match py_getitem (_stack s) (-1) with
  | None => false
  | Some top =>
      match py_getitem (_action (_spec s)) (snd top) with
      | None => false
      | Some row => bool_decide (row !! symSpec = None)
      end
  end.

(** The automaton's current decision state. *)
Definition decision_state (s : State) : option Z := snd <$> last (_stack s).

(** ** Runs that differ only in tracing *)

(** Two states agree on everything but the trace: the same specification,
    result, stack and store; the [verbose] flag and what was printed are
    left out. *)
Definition same_parse (s1 s2 : State) : Prop :=
  _spec s1 = _spec s2 /\ _start s1 = _start s2
  /\ _stack s1 = _stack s2 /\ heap s1 = heap s2.

(** Two calls end alike: both run out of fuel, or both return, or both
    raise the same exception, leaving states that agree. *)
Definition same_outcome (o1 o2 : option Outcome) : Prop :=
  match o1, o2 with
  | None, None => True
  | Some (Returned a), Some (Returned b) => same_parse a b
  | Some (Raised e a), Some (Raised e' b) => e = e' /\ same_parse a b
  | _, _ => False
  end.

Definition same_iter (i1 i2 : Iter) : Prop :=
  match i1, i2 with
  | Break a, Break b => same_parse a b
  | Continue a, Continue b => same_parse a b
  | Abort e a, Abort e' b => e = e' /\ same_parse a b
  | _, _ => False
  end.

(** ** A compiled specification with an empty production: [Opt -> | '!'] *)

Module Opt.

Definition BangT : PyType := UserT 0.
Definition OptT : PyType := UserT 1.

Definition d_eps : Descriptor := 0%nat.
Definition d_eoi : Descriptor := 1%nat.
Definition d_bang : Descriptor := 2%nat.
Definition d_Opt : Descriptor := 3%nat.

(** A handler that does nothing and returns nothing. *)
Definition nothing (h : Store) (sym : Symbol) (args : list Symbol) : HandlerResult :=
  HReturn h None.

Definition p_empty : Production := mkProduction (mkNontermSpec d_Opt OptT) [] nothing.
Definition p_bang : Production :=
  mkProduction (mkNontermSpec d_Opt OptT) [d_bang] nothing.

Definition spec : Spec :=
  mkSpec
    {[ EpsilonT := d_eps; EndOfInputT := d_eoi; BangT := d_bang; OptT := d_Opt ]}
    [ {[ d_bang := [ShiftAction 2]; d_eoi := [ReduceAction p_empty] ]};
      {[ d_eoi := [ShiftAction 3] ]};
      {[ d_eoi := [ReduceAction p_bang] ]};
      ∅ ]
    [ {[ d_Opt := 1 ]}; ∅; ∅; ∅ ]
    d_Opt 0 true.

Definition store0 : Store := mkStore 0 ∅.

Definition fresh (debug : bool) : State :=
  match __init__ debug true spec store0 [] with
  | Instance s => s
  | CtorRaised _ => mkState spec None [] false store0 []
  end.

End Opt.

(** ** A specification with a conflict left in it *)

Module Conflicted.

(** The arithmetic tables with one conflict counted: what the compiler
    hands over for an ambiguous grammar. *)
Definition spec : Spec :=
  mkSpec (_sym2spec Arith.spec) (_action Arith.spec) (_goto Arith.spec)
    (_userStartSym Arith.spec) 1 false.

End Conflicted.

(** ** The stack invariant *)

Definition outcome_state (o : Outcome) : State :=
  match o with
  | Returned s => s
  | Raised _ s => s
  end.

Definition iter_state (i : Iter) : State :=
  match i with
  | Break s => s
  | Continue s => s
  | Abort _ s => s
  end.

(** The stack is not empty and its slot 0 holds an [Epsilon] instance at
    state 0. *)
Definition stack_inv (s : State) : bool :=
  match _stack s with
  | [] => false
  | (eps, q) :: _ => bool_decide (sym_type eps = EpsilonT) && (q =? 0)
  end.

(** The production the next turn of the loop reduces by, if it reduces. *)
Definition pending_reduce (symSpec : Descriptor) (s : State) : option Production :=
  match py_getitem (_stack s) (-1) with
  | None => None
  | Some top =>
      match py_getitem (_action (_spec s)) (snd top) with
      | None => None
      | Some row =>
          match row !! symSpec with
          | None => None
          | Some actions =>
              match actions !! 0%nat with
              | Some (ReduceAction p) => Some p
              | _ => None
              end
          end
      end
  end.

(** Every reduction the loop comes to has its right-hand side on the
    stack above the bottom entry. *)
Definition reductions_fit (debug : bool) (sym : Symbol) (symSpec : Descriptor)
    (s0 : State) : Prop :=
  forall s1 p,
    rtc (reduce_step debug sym symSpec) s0 s1 ->
    pending_reduce symSpec s1 = Some p ->
    (length (rhs p) < length (_stack s1))%nat.

Definition call_fits (debug : bool) (op : Op) (s : State) : Prop :=
  match op with
  | OpToken tok =>
      forall d, _sym2spec (_spec s) !! sym_type tok = Some d ->
                reductions_fit debug tok d (act_entry tok s)
  | OpEoi =>
      forall d, _sym2spec (_spec s) !! EndOfInputT = Some d ->
                reductions_fit debug (new_object EndOfInputT (heap s)).1 d
                  (act_entry (new_object EndOfInputT (heap s)).1
                     (set_heap (new_object EndOfInputT (heap s)).2 s))
  | _ => True
  end.

(** A check of [reductions_fit] along the run of the loop. *)
Fixpoint fit_check (debug : bool) (fuel : nat) (sym : Symbol)
    (symSpec : Descriptor) (s : State) : bool :=
  match fuel with
  | O => false
  | S f =>
      match pending_reduce symSpec s with
      | Some p => (length (rhs p) <? length (_stack s))%nat
      | None => true
      end
      && match act_iter debug sym symSpec s with
         | Continue s' => fit_check debug f sym symSpec s'
         | _ => true
         end
  end.

(** ** Acceptance

    What the driver relies on when [eoi()] reads the result from slot 1:
    the compiler adds the start production [<S> -> S <$>], so the
    end-of-input sentinel is shifted only from the state entered from
    state 0 on the start symbol.  The conditions below state this on the
    tables; they can be checked on a given specification. *)







(** The productions the action table reduces by. *)
Definition row_productions (row : gmap Descriptor (list Action)) : list Production :=
  omap (fun e : Descriptor * list Action =>
          match e.2 !! 0%nat with
          | Some (ReduceAction p) => Some p
          | _ => None
          end)
       (map_to_list row).

Definition productions (spec : Spec) : list Production :=
  _action spec ≫= row_productions.





(** ** The compiled grammar and its sentences

    The grammar and the construction of the tables belong to
    [parsing.grammar] and [parsing.automaton], which the driver imports
    and does not define.  What a valid sentence is, what the tables
    accept, and what the compiler owes the driver are therefore taken from
    the specification. *)

(** Modelled from the spec: the grammar behind the tables ([parsing.grammar]
    is missing).  Section 3 has a production as a left-hand-side descriptor
    with an ordered sequence of right-hand-side descriptors; the grammar is
    a list of productions, and a descriptor is a nonterminal of it when a
    production has it on its left-hand side. *)
Definition nonterminal (G : list Production) (d : Descriptor) : bool :=
  existsb (fun p => (nt_key (lhs p) =? d)%nat) G.

(** Modelled from the spec: derivation in the grammar ([parsing.grammar] is
    missing).  [derives G form w]: the sentential form [form] derives the
    string of terminals [w], a terminal standing for itself and a
    nonterminal for what the right-hand side of one of its productions
    derives. *)
Inductive derives (G : list Production)
    : list Descriptor -> list Descriptor -> Prop :=
  | derives_nil : derives G [] []
  | derives_terminal d form w :
      nonterminal G d = false ->
      derives G form w ->
      derives G (d :: form) (d :: w)
  | derives_production p form w1 w2 :
      p ∈ G ->
      derives G (rhs p) w1 ->
      derives G form w2 ->
      derives G (nt_key (lhs p) :: form) (w1 ++ w2).

(** Modelled from the spec: a valid sentence of the compiled grammar
    (section 8; the grammar itself is missing) is a string of terminals the
    start descriptor derives, by the productions the tables reduce by. *)
Definition valid_sentence (spec : Spec) (descs : list Descriptor) : Prop :=
  derives (productions spec) [_userStartSym spec] descs.

(** Modelled from the spec: [actions(state, descriptor)] of section 6
    ([parsing.automaton] is missing).  A state is the number of a row; the
    deterministic engine has a legal transition where the entry holds a
    single action. *)
Definition table_action (spec : Spec) (q : Z) (d : Descriptor) : option Action :=
  if 0 <=? q then
    match _action spec !! Z.to_nat q with
    | Some row =>
        match row !! d with
        | Some [a] => Some a
        | _ => None
        end
    | None => None
    end
  else None.

(** Modelled from the spec: [goto(state, nonterminalDescriptor)] of
    section 6 ([parsing.automaton] is missing). *)
Definition table_goto (spec : Spec) (q : Z) (d : Descriptor) : option Z :=
  if 0 <=? q then
    match _goto spec !! Z.to_nat q with
    | Some row => row !! d
    | None => None
    end
  else None.

(** Modelled from the spec: the moves of the classical LR automaton
    (section 4.1 and the glossary; [parsing.automaton] is missing) on a
    configuration, the stack of states with the input left.  A shift
    consumes the next descriptor and pushes the target state; a reduction
    replaces the top [len(rhs)] states by the goto state of the state then
    on top and the left-hand side, and consumes nothing. *)
Inductive lr_move (spec : Spec)
    : list Z * list Descriptor -> list Z * list Descriptor -> Prop :=
  | lr_shift states q d rest t :
      last states = Some q ->
      table_action spec q d = Some (ShiftAction t) ->
      lr_move spec (states, d :: rest) (states ++ [t], rest)
  | lr_reduce base popped q d rest p q' g :
      last (base ++ popped) = Some q ->
      table_action spec q d = Some (ReduceAction p) ->
      length popped = length (rhs p) ->
      last base = Some q' ->
      table_goto spec q' (nt_key (lhs p)) = Some g ->
      lr_move spec (base ++ popped, d :: rest) (base ++ [g], d :: rest).

(** Modelled from the spec: the tables accept a sentence when its
    descriptors, followed by the end-of-input descriptor, take the
    automaton from state 0 to the end of the input. *)
Definition table_accepts (spec : Spec) (descs : list Descriptor) : Prop :=
  exists d_eoi final,
    _sym2spec spec !! EndOfInputT = Some d_eoi
    /\ rtc (lr_move spec) ([0], descs ++ [d_eoi]) (final, []).

(** Modelled from the spec: the contract of the compiler (sections 1 and
    6; [parsing.automaton] is missing).  The tables compiled from a grammar
    accept every sentence of it. *)
Definition tables_complete (spec : Spec) : Prop :=
  forall descs, valid_sentence spec descs -> table_accepts spec descs.

(** *** A check of the contract on given tables

    Tables whose reductions all look ahead to the same set [F] of
    terminals can be checked against their grammar: from every state with
    a goto on a nonterminal, the right-hand side of each of its productions
    can be walked through the tables, ends in a state that reduces by the
    production on every member of [F], and has each of its nonterminals
    followed by a member of [F]. *)

(** The transition on a descriptor: the goto on a nonterminal, the shift
    on a terminal. *)
Definition transition (spec : Spec) (q : Z) (d : Descriptor) : option Z :=
  if nonterminal (productions spec) d then table_goto spec q d
  else
    match table_action spec q d with
    | Some (ShiftAction t) => Some t
    | _ => None
    end.

(** The states a sentential form leads through. *)
Fixpoint walk (spec : Spec) (q : Z) (form : list Descriptor) : option (list Z) :=
  match form with
  | [] => Some []
  | d :: form' =>
      match transition spec q d with
      | None => None
      | Some t =>
          match walk spec t form' with
          | None => None
          | Some path => Some (t :: path)
          end
      end
  end.

(** Every nonterminal of the form is followed, in the form or by the
    lookahead [a] after it, by a member of [F]. *)
Fixpoint followed (G : list Production) (F : list Descriptor)
    (form : list Descriptor) (a : Descriptor) : bool :=
  match form with
  | [] => true
  | d :: form' =>
      (negb (nonterminal G d) || bool_decide (hd a form' ∈ F))
      && followed G F form' a
  end.

(** State [q] reduces on [b] by a production with the left-hand side and
    the length of [p]. *)
Definition reduces_as (spec : Spec) (q : Z) (b : Descriptor) (p : Production)
    : bool :=
  match table_action spec q b with
  | Some (ReduceAction p') =>
      (length (rhs p') =? length (rhs p))%nat
      && (nt_key (lhs p') =? nt_key (lhs p))%nat
  | _ => false
  end.

Definition closed_at (spec : Spec) (F : list Descriptor) (q : Z) (p : Production)
    : bool :=
  match table_goto spec q (nt_key (lhs p)) with
  | None => true
  | Some _ =>
      match walk spec q (rhs p) with
      | None => false
      | Some path =>
          forallb (fun b => reduces_as spec (List.last path q) b p
                            && followed (productions spec) F (rhs p) b) F
      end
  end.

(** The start of the automaton: the start descriptor has productions,
    state 0 has a goto on it, and the state entered shifts the
    end-of-input descriptor, a member of [F]. *)
Definition start_closed (spec : Spec) (F : list Descriptor) : bool :=
  nonterminal (productions spec) (_userStartSym spec)
  && match _sym2spec spec !! EndOfInputT with
     | None => false
     | Some e =>
         bool_decide (e ∈ F)
         && match table_goto spec 0 (_userStartSym spec) with
            | None => false
            | Some q1 =>
                match table_action spec q1 e with
                | Some (ShiftAction _) => true
                | _ => false
                end
            end
     end.

Definition tables_closed (spec : Spec) (F : list Descriptor) : bool :=
  forallb (fun d => negb (nonterminal (productions spec) d)) F
  && forallb (fun q => forallb (closed_at spec F (Z.of_nat q)) (productions spec))
       (seq 0 (length (_goto spec)))
  && start_closed spec F.

(** *** The moves as a function

    The loop of the driver on states alone, with the driver's own
    indexing: what [_act] and [_reduce] do to the states of the stack when
    every handler returns.  It runs the automaton where a proof needs to
    compute. *)







(** ** The read-only members of [Lr] *)

Module Lr.

(** [sym_spec]: the descriptor of a symbol's class; [None] is
    [KeyError]. *)
Definition sym_spec (s : State) (sym : Symbol) : option Descriptor :=
  _sym2spec (_spec s) !! sym_type sym.

(** The properties [spec], [start] and [verbose] (its getter). *)
Definition spec (s : State) : Spec := _spec s.
Definition start (s : State) : option (list Symbol) := _start s.
Definition getVerbose (s : State) : bool := _verbose s.

End Lr.

(** ** How a call ended

    What a caller sees of a call before looking at the instance: whether
    it returned, and the exception if it did not. *)

Definition outcome_kind (o : option Outcome) : option (option Exn) :=
  match o with
  | None => None
  | Some (Returned _) => Some None
  | Some (Raised e _) => Some (Some e)
  end.

Definition is_returned (o : Outcome) : bool :=
  match o with
  | Returned _ => true
  | Raised _ _ => false
  end.

Definition is_instance (c : Constructed) : bool :=
  match c with
  | Instance _ => true
  | CtorRaised _ => false
  end.

(** ** A start production whose handler returns its operand *)

Module PassThrough.

(** The handler of [E -> T] written as [return t]: the term itself is the
    expression, no new object is filled. *)
Definition pass (h : Store) (sym : Symbol) (args : list Symbol) : HandlerResult :=
  match args with
  | [t] => HReturn h (Some t)
  | _ => HRaise h
  end.

Definition p_E_T : Production :=
  mkProduction (mkNontermSpec Arith.d_E Arith.ET) [Arith.d_T] pass.

(** The arithmetic tables, with this handler on [E -> T]. *)
Definition spec : Spec :=
  mkSpec
    (_sym2spec Arith.spec)
    [ Arith.on_operand;
      {[ Arith.d_eoi := [ShiftAction 4]; Arith.d_plus := [ShiftAction 5] ]};
      Arith.on_follow p_E_T;
      Arith.on_follow Arith.p_T_num;
      ∅;
      Arith.on_operand;
      Arith.on_follow Arith.p_E_plus;
      Arith.on_operand;
      {[ Arith.d_rpar := [ShiftAction 9]; Arith.d_plus := [ShiftAction 5] ]};
      Arith.on_follow Arith.p_T_paren ]
    (_goto Arith.spec)
    Arith.d_E 0 true.

Definition fresh (debug : bool) : State :=
  match __init__ debug true spec Arith.store0 [] with
  | Instance s => s
  | CtorRaised _ => mkState spec None [] false Arith.store0 []
  end.

End PassThrough.

(** ** How a feed ended *)


(** The state a feed leaves, whether it came to the end or stopped at a
    raise. *)
Definition feed_state (r : option (nat * Outcome)) (s : State) : State :=
  match r with
  | Some (_, Returned s') => s'
  | Some (_, Raised _ s') => s'
  | None => s
  end.

(** ** Reductions on a stack that is too short *)

(** What the first loop of [_reduce] reads for a right-hand side of length
    [n].  With the window on the list it is the symbols of the top [n]
    entries; a window that starts below index 0 is read with negative
    indices, which count from the end: the top [n - len] symbols a first
    time, then the whole list. *)
Definition rhs_read (stack : list (Symbol * Z)) (n : nat) : list Symbol :=
  fst <$> (if (n <=? length stack)%nat then drop (length stack - n) stack
           else drop (2 * length stack - n) stack ++ stack).

(** Malformed tables: the arithmetic tables with a reduction by [E -> T]
    on the end of input in state 0, where nothing has been read. *)
Module Malformed.

Definition spec : Spec :=
  mkSpec
    (_sym2spec Arith.spec)
    (<[0%nat := {[ Arith.d_eoi := [ReduceAction Arith.p_E_T] ]}]> (_action Arith.spec))
    (_goto Arith.spec)
    Arith.d_E 0 true.

Definition fresh (debug : bool) : State :=
  match __init__ debug true spec Arith.store0 [] with
  | Instance s => s
  | CtorRaised _ => mkState spec None [] false Arith.store0 []
  end.

End Malformed.

(** * Properties *)

(** ** Calls by their outcome

    A call that returned left the state [state_after] reads off it; so did
    one that raised.  The concrete runs below are settled by the kind of
    their outcome. *)

Lemma outcome_returned (o : option Outcome) (s0 : State) :
  outcome_kind o = Some None -> o = Some (Returned (Arith.state_after o s0)).
Proof. by destruct o as [[s|e s]|]. Qed.

Lemma outcome_raised (o : option Outcome) (e : Exn) (s0 : State) :
  outcome_kind o = Some (Some e) -> o = Some (Raised e (Arith.state_after o s0)).
Proof. destruct o as [[s|e' s]|]; simpl; congruence. Qed.

Lemma reduce_returned (debug : bool) (p : Production) (s : State) :
  is_returned (_reduce debug p s) = true ->
  _reduce debug p s = Returned (Arith.reduced debug p s).
Proof. unfold Arith.reduced. by destruct (_reduce debug p s). Qed.

Lemma run_snoc (debug : bool) (fuel : nat) (ops : list Op) (op : Op)
    (s s1 : State) :
  run debug fuel ops s = Some (Returned s1) ->
  run debug fuel (ops ++ [op]) s = run_op debug fuel op s1.
Proof.
  revert s. induction ops as [|op0 ops IH]; intros s; simpl.
  - intros [= ->]. by destruct (run_op debug fuel op s1) as [[?|? ?]|].
  - destruct (run_op debug fuel op0 s) as [[s'|e s']|]; [|done|done].
    apply IH.
Qed.

Lemma arith_step (debug : bool) (ops : list Op) (op : Op) :
  outcome_kind (run debug 10 ops (Arith.fresh debug)) = Some None ->
  run_op debug 10 op (Arith.after debug ops)
  = run debug 10 (ops ++ [op]) (Arith.fresh debug).
Proof.
  intros H. apply (outcome_returned _ (Arith.fresh debug)) in H.
  symmetry. by apply run_snoc.
Qed.

Lemma arith_step_returned (debug : bool) (ops : list Op) (op : Op) :
  outcome_kind (run debug 10 ops (Arith.fresh debug)) = Some None ->
  outcome_kind (run debug 10 (ops ++ [op]) (Arith.fresh debug)) = Some None ->
  run_op debug 10 op (Arith.after debug ops)
  = Some (Returned (Arith.after debug (ops ++ [op]))).
Proof.
  intros H1 H2. rewrite arith_step by done. by apply outcome_returned.
Qed.

Lemma arith_step_raised (debug : bool) (ops : list Op) (op : Op) (e : Exn) :
  outcome_kind (run debug 10 ops (Arith.fresh debug)) = Some None ->
  outcome_kind (run debug 10 (ops ++ [op]) (Arith.fresh debug)) = Some (Some e) ->
  run_op debug 10 op (Arith.after debug ops)
  = Some (Raised e (Arith.after debug (ops ++ [op]))).
Proof.
  intros H1 H2. rewrite arith_step by done. by apply outcome_raised.
Qed.

(** The scenarios of the specification. *)
Example arith_3_plus_4 :
  Arith.result_values
    (Arith.after true
       [OpToken Arith.num3; OpToken Arith.plus; OpToken Arith.num4; OpEoi])
  = Some [(Arith.ET, 7)].
Proof. by_vm. Qed.

Example arith_3_plus_eoi :
  Arith.raised
    (run true 10 [OpToken Arith.num3; OpToken Arith.plus; OpEoi] (Arith.fresh true))
  = Some (UnexpectedToken (mkSymbol 8 EndOfInputT)).
Proof. by_vm. Qed.

(** The constructor, when it returns, made what [reset()] makes of any
    instance with the same specification, store and output, the flag
    apart. *)
Lemma __init___of_state (debug exact : bool) (s : State) :
  is_instance (__init__ debug exact (_spec s) (heap s) (stdout s)) = true ->
  __init__ debug exact (_spec s) (heap s) (stdout s)
  = Instance (set_verbose false (reset s)).
Proof.
  unfold __init__.
  destruct (debug && exact && negb (pureLR (_spec s))); [done|].
  destruct (debug && negb (_nConflicts (_spec s) =? 0)); [done|].
  intros _. by destruct s.
Qed.

(** ** Python list operations *)

Lemma py_getitem_nonneg {A : Type} (l : list A) (i : nat) :
  py_getitem l (Z.of_nat i) = l !! i.
Proof.
  unfold py_getitem.
  destruct (Z.leb_spec 0 (Z.of_nat i)); [|lia].
  by rewrite Nat2Z.id.
Qed.

Lemma py_getitem_top {A : Type} (l : list A) : py_getitem l (-1) = last l.
Proof.
  unfold py_getitem. simpl (0 <=? -1).
  destruct (Z.leb_spec 0 (Z.of_nat (length l) + -1)) as [H|H].
  - rewrite last_lookup. f_equal. lia.
  - destruct l as [|x l]; [done|]. simpl in H. lia.
Qed.

Lemma py_getitem_top_snoc {A : Type} (l : list A) (x : A) :
  py_getitem (l ++ [x]) (-1) = Some x.
Proof. by rewrite py_getitem_top, last_snoc. Qed.

Lemma py_getitem_top_Some {A : Type} (l : list A) (x : A) :
  py_getitem l (-1) = Some x <-> exists base, l = base ++ [x].
Proof.
  rewrite py_getitem_top. split.
  - intros H. destruct l as [|y l] using rev_ind; [done|].
    rewrite last_snoc in H. injection H as ->. eauto.
  - intros [base ->]. apply last_snoc.
Qed.

Lemma py_getitem_top_None {A : Type} (l : list A) :
  py_getitem l (-1) = None <-> l = [].
Proof.
  rewrite py_getitem_top. split.
  - destruct l as [|y l] using rev_ind; [done|]. by rewrite last_snoc.
  - by intros ->.
Qed.

Lemma pop_n_Some (n : nat) (l st : list (Symbol * Z)) :
  pop_n n l = Some st <-> (n <= length l)%nat /\ st = take (length l - n) l.
Proof.
  revert l st. induction n as [|n IH]; intros l st; simpl.
  - rewrite Nat.sub_0_r, firstn_all. split; [intros [= ->]; split; [lia|done] | intros [_ ->]; done].
  - destruct l as [|x l] using rev_ind.
    + simpl. split; [done | intros [H _]; lia].
    + assert (Hne : l ++ [x] <> []) by (destruct l; done).
      destruct (l ++ [x]) as [|y l'] eqn:E; [done|]. rewrite <- E. clear Hne.
      rewrite removelast_last, IH, length_app. simpl.
      replace (length l + 1 - S n)%nat with (length l - n)%nat by lia.
      rewrite take_app_le by lia.
      split; intros [H ->]; (split; [lia | done]).
Qed.

Lemma pop_n_None (n : nat) (l : list (Symbol * Z)) :
  pop_n n l = None <-> (length l < n)%nat.
Proof.
  destruct (pop_n n l) as [st|] eqn:E.
  - apply pop_n_Some in E as [H _]. split; [done | lia].
  - split; [intros _ | done].
    destruct (Nat.le_gt_cases n (length l)) as [H|H]; [|done].
    assert (pop_n n l = Some (take (length l - n) l)) by (by apply pop_n_Some).
    congruence.
Qed.

(** The matched right-hand side, when the stack is deep enough: the
    symbols of the top [n] entries, bottom first. *)
Lemma collect_rhs_window (l : list (Symbol * Z)) (a k : nat) :
  (a + k <= length l)%nat ->
  collect_rhs l (seqZ (Z.of_nat a) (Z.of_nat k)) = Some (fst <$> take k (drop a l)).
Proof.
  unfold collect_rhs. revert a. induction k as [|k IH]; intros a H.
  - done.
  - rewrite seqZ_cons by lia.
    replace (Z.succ (Z.of_nat a)) with (Z.of_nat (S a)) by lia.
    replace (Z.pred (Z.of_nat (S k))) with (Z.of_nat k) by lia.
    destruct (lookup_lt_is_Some_2 l a) as [x Hx]; [lia|].
    cbn [mapM]. rewrite py_getitem_nonneg, Hx. simpl.
    rewrite IH by lia. simpl.
    rewrite (drop_S l x a Hx). done.
Qed.

Lemma collect_rhs_top (l : list (Symbol * Z)) (n : nat) :
  (n <= length l)%nat ->
  collect_rhs l (py_range (Z.of_nat (length l) - Z.of_nat n) (Z.of_nat (length l)))
  = Some (fst <$> drop (length l - n) l).
Proof.
  intros H. unfold py_range.
  replace (Z.of_nat (length l) - Z.of_nat n) with (Z.of_nat (length l - n)) by lia.
  replace (Z.of_nat (length l) - Z.of_nat (length l - n)) with (Z.of_nat n) by lia.
  rewrite collect_rhs_window by lia.
  rewrite take_ge; [done|]. rewrite length_drop. lia.
Qed.

Lemma collect_rhs_length (l : list (Symbol * Z)) (idx : list Z) (syms : list Symbol) :
  collect_rhs l idx = Some syms -> length syms = length idx.
Proof.
  unfold collect_rhs. intros H. apply mapM_Some_1, Forall2_length in H. done.
Qed.

(** ** Reduction *)

Section ReductionFacts.

Variable __debug__ : bool.

Lemma _production_ProdOk (p : Production) (syms : list Symbol) (h h2 : Store)
    (r : Symbol) :
  _production __debug__ p syms h = ProdOk r h2 ->
  exists ret,
    method p (new_object (nontermType (lhs p)) h).2
             (new_object (nontermType (lhs p)) h).1 syms = HReturn h2 ret
    /\ r = default (new_object (nontermType (lhs p)) h).1 ret.
Proof.
  unfold _production. simpl.
  destruct (__debug__ && _); [done|].
  destruct (method p _ _ syms) as [h3 [r'|]|h3]; intros [= <- <-]; eauto.
Qed.

(** Everything a completed [_reduce] did. *)
Lemma _reduce_Returned (p : Production) (s s' : State) :
  _reduce __debug__ p s = Returned s' ->
  exists base popped top row g h2 ret,
    _stack s = base ++ popped
    /\ length popped = length (rhs p)
    /\ py_getitem base (-1) = Some top
    /\ py_getitem (_goto (_spec s)) (snd top) = Some row
    /\ row !! nt_key (lhs p) = Some g
    /\ method p (new_object (nontermType (lhs p)) (heap s)).2
                (new_object (nontermType (lhs p)) (heap s)).1
                (fst <$> popped) = HReturn h2 ret
    /\ s' = set_stack
              (base ++ [(default (new_object (nontermType (lhs p)) (heap s)).1 ret, g)])
              (set_heap h2 s).
Proof.
  unfold _reduce.
  destruct (collect_rhs _ _) as [syms|] eqn:Hc; [|done].
  destruct (_production _ p syms (heap s)) as [r h2|e h2] eqn:Hp; [|done].
  cbn [_stack set_heap].
  destruct (pop_n _ _) as [st|] eqn:Hpop; [|done].
  apply pop_n_Some in Hpop as [Hle ->].
  rewrite collect_rhs_top in Hc by done. injection Hc as <-.
  destruct (py_getitem (take _ _) (-1)) as [top|] eqn:Htop; [|done].
  cbn [_spec set_stack set_heap].
  destruct (py_getitem (_goto _) _) as [row|] eqn:Hrow; [|done].
  destruct (row !! _) as [g|] eqn:Hg; [|done].
  intros [= <-].
  apply _production_ProdOk in Hp as (ret & Hm & ->).
  exists (take (length (_stack s) - length (rhs p)) (_stack s)),
         (drop (length (_stack s) - length (rhs p)) (_stack s)),
         top, row, g, h2, ret.
  rewrite take_drop, length_drop. repeat split; try done. lia.
Qed.


(** [_reduce] never raises [UnexpectedToken]. *)
Lemma _reduce_not_UnexpectedToken (p : Production) (s s' : State) (e : Exn) :
  _reduce __debug__ p s = Raised e s' -> is_UnexpectedToken e = false.
Proof.
  unfold _reduce.
  destruct (collect_rhs _ _) as [syms|]; [|by intros [= <- _]].
  unfold _production. simpl.
  destruct (__debug__ && _); [by intros [= <- _]|].
  destruct (method p _ _ syms) as [h3 [r'|]|h3]; [| |by intros [= <- _]].
  all: simpl; destruct (pop_n _ _) as [st|]; [|by intros [= <- _]]; simpl.
  all: destruct (py_getitem st _) as [top|]; [|by intros [= <- _]]; simpl.
  all: destruct (py_getitem (_goto _) _) as [row|]; [|by intros [= <- _]].
  all: destruct (row !! _) as [g|]; [done | by intros [= <- _]].
Qed.

End ReductionFacts.

(** C3 (reduction arity law).  A completed reduction by a production with
    [n] right-hand-side descriptors pops exactly the top [n] entries and
    pushes exactly one, so the stack length changes by [1 - n]; the state of
    the pushed entry is the goto-table entry for the state of the entry
    uncovered by the pops and the production's left-hand side; for [n = 0]
    nothing is popped and the uncovered entry is the old top. *)
Theorem reduce_arity (debug : bool) (p : Production) (s s' : State) :
  _reduce debug p s = Returned s' ->
  exists base popped top row r g,
    _stack s = base ++ popped
    /\ length popped = length (rhs p)
    /\ pop_n (length (rhs p)) (_stack s) = Some base
    /\ _stack s' = base ++ [(r, g)]
    /\ Z.of_nat (length (_stack s'))
       = Z.of_nat (length (_stack s)) + 1 - Z.of_nat (length (rhs p))
    /\ py_getitem base (-1) = Some top
    /\ py_getitem (_goto (_spec s)) (snd top) = Some row
    /\ row !! nt_key (lhs p) = Some g
    /\ (length (rhs p) = 0%nat ->
        popped = [] /\ base = _stack s /\ py_getitem (_stack s) (-1) = Some top).
Proof.
  intros H.
  apply _reduce_Returned in H
    as (base & popped & top & row & g & h2 & ret & Hst & Hlen & Htop & Hrow & Hg & _ & ->).
  exists base, popped, top, row,
    (default (new_object (nontermType (lhs p)) (heap s)).1 ret), g.
  split_and!; try done.
  - apply pop_n_Some. rewrite Hst, length_app. split; [lia|].
    replace (length base + length popped - length (rhs p))%nat with (length base) by lia.
    by rewrite take_app_length.
  - cbn [_stack set_stack]. rewrite Hst, !length_app. simpl. lia.
  - intros Hn. rewrite Hn in Hlen. apply nil_length_inv in Hlen as ->.
    by rewrite Hst, app_nil_r.
Qed.

Lemma reduce_arity_witness :
  let s := Arith.sum_on_stack true in
  let s' := Arith.reduced true Arith.p_E_plus s in
  _reduce true Arith.p_E_plus s = Returned s'
  /\ _stack s = [(mkSymbol 5 EpsilonT, 0); (mkSymbol 7 Arith.ET, 1);
                 (Arith.plus, 5); (mkSymbol 8 Arith.TT, 6)]
  /\ _stack s' = [(mkSymbol 5 EpsilonT, 0); (mkSymbol 9 Arith.ET, 1)]
  /\ exists base popped top row r g,
       _stack s = base ++ popped
       /\ length popped = 3%nat
       /\ pop_n 3 (_stack s) = Some base
       /\ _stack s' = base ++ [(r, g)]
       /\ Z.of_nat (length (_stack s')) = Z.of_nat (length (_stack s)) + 1 - 3
       /\ py_getitem base (-1) = Some top
       /\ py_getitem (_goto (_spec s)) (snd top) = Some row
       /\ row !! Arith.d_E = Some g
       /\ (3%nat = 0%nat ->
           popped = [] /\ base = _stack s /\ py_getitem (_stack s) (-1) = Some top).
Proof.
  intros s s'.
  assert (H : _reduce true Arith.p_E_plus s = Returned s')
    by (apply reduce_returned; by_vm).
  split; [exact H|]. split; [by_vm|].
  split; [by_vm|].
  exact (reduce_arity true Arith.p_E_plus s s' H).
Defined.

(** C4 (handler call and default result).  A completed reduction builds a
    new placeholder object of the left-hand side's class, calls the
    production's handler with the placeholder and the symbols of the top
    [n] stack entries, bottom first, and pushes the handler's return value
    when there is one and the placeholder itself when the handler returns
    [None]; the store is the one the handler left. *)
Theorem reduce_handler_result (debug : bool) (p : Production) (s s' : State) :
  _reduce debug p s = Returned s' ->
  let sym := (new_object (nontermType (lhs p)) (heap s)).1 in
  let h1 := (new_object (nontermType (lhs p)) (heap s)).2 in
  let args := fst <$> drop (length (_stack s) - length (rhs p)) (_stack s) in
  sym_type sym = nontermType (lhs p)
  /\ sym_id sym = next_id (heap s)
  /\ length args = length (rhs p)
  /\ exists h2 ret,
       method p h1 sym args = HReturn h2 ret
       /\ heap s' = h2
       /\ fst <$> py_getitem (_stack s') (-1)
          = Some (match ret with Some r => r | None => sym end).
Proof.
  intros H sym h1 args.
  apply _reduce_Returned in H
    as (base & popped & top & row & g & h2 & ret & Hst & Hlen & Htop & Hrow & Hg & Hm & ->).
  assert (Hargs : args = fst <$> popped).
  { unfold args. rewrite Hst, length_app, <- Hlen.
    replace (length base + length popped - length popped)%nat with (length base) by lia.
    by rewrite drop_app_length. }
  split_and!; try done.
  - by rewrite Hargs, length_fmap.
  - exists h2, ret. rewrite Hargs. split; [done|]. split; [done|].
    cbn [_stack set_stack]. rewrite py_getitem_top_snoc. by destruct ret.
Qed.

(** The handler of [E -> E '+' T] returns nothing: the new [E] object is
    pushed, carrying the sum the handler stored in it. *)
Lemma reduce_handler_result_witness :
  let s := Arith.sum_on_stack true in
  let s' := Arith.reduced true Arith.p_E_plus s in
  let sym := mkSymbol 9 Arith.ET in
  let args := [mkSymbol 7 Arith.ET; Arith.plus; mkSymbol 8 Arith.TT] in
  _reduce true Arith.p_E_plus s = Returned s'
  /\ Arith.value (heap s') sym = 7
  /\ (new_object (nontermType (lhs Arith.p_E_plus)) (heap s)).1 = sym
  /\ fst <$> drop (length (_stack s) - 3) (_stack s) = args
  /\ sym_type sym = Arith.ET
  /\ sym_id sym = next_id (heap s)
  /\ length args = 3%nat
  /\ exists h2 ret,
       method Arith.p_E_plus (new_object Arith.ET (heap s)).2 sym args = HReturn h2 ret
       /\ heap s' = h2
       /\ fst <$> py_getitem (_stack s') (-1)
          = Some (match ret with Some r => r | None => sym end).
Proof.
  intros s s' sym args.
  assert (H : _reduce true Arith.p_E_plus s = Returned s')
    by (apply reduce_returned; by_vm).
  split; [exact H|]. split; [by_vm|].
  split; [by_vm|]. split; [by_vm|].
  exact (reduce_handler_result true Arith.p_E_plus s s' H).
Defined.

(** ** The decision loop *)

Section LoopFacts.

Variable __debug__ : bool.

Local Abbreviation step := (reduce_step __debug__).

Lemma _act_unfold (fuel : nat) sym d s :
  _act __debug__ fuel sym d s = act_loop __debug__ fuel sym d (act_entry sym s).
Proof. reflexivity. Qed.

Lemma act_iter_no_action sym d s :
  no_action d s = true ->
  act_iter __debug__ sym d s = Abort (UnexpectedToken sym) s.
Proof.
  unfold no_action, act_iter.
  destruct (py_getitem (_stack s) (-1)) as [top|]; [|done].
  destruct (py_getitem (_action _) _) as [row|]; [|done].
  intros H. apply bool_decide_eq_true in H. by rewrite H.
Qed.

Lemma act_iter_UnexpectedToken sym d s e s' :
  act_iter __debug__ sym d s = Abort e s' ->
  is_UnexpectedToken e = true ->
  no_action d s = true /\ s' = s /\ e = UnexpectedToken sym.
Proof.
  unfold no_action, act_iter.
  destruct (py_getitem (_stack s) (-1)) as [top|]; [|by intros [= <- <-]].
  destruct (py_getitem (_action _) _) as [row|]; [|by intros [= <- <-]].
  destruct (row !! d) as [actions|] eqn:Hrow.
  - destruct (__debug__ && _); [by intros [= <- <-]|].
    destruct (actions !! 0%nat) as [[t|p]|]; [done| |by intros [= <- <-]].
    destruct (_reduce _ p _) as [s2|e2 s2] eqn:Hr; [done|].
    intros [= <- <-] He.
    apply _reduce_not_UnexpectedToken in Hr. congruence.
  - intros [= <- <-] _. split; [by apply bool_decide_eq_true|done].
Qed.

Lemma act_loop_fuel_mono (fuel fuel' : nat) sym d s o :
  act_loop __debug__ fuel sym d s = Some o ->
  (fuel <= fuel')%nat ->
  act_loop __debug__ fuel' sym d s = Some o.
Proof.
  revert fuel' s. induction fuel as [|fuel IH]; intros fuel' s; [done|].
  destruct fuel' as [|fuel']; [lia|]. simpl.
  destruct (act_iter _ sym d s); try done.
  intros H Hle. apply IH; [done|lia].
Qed.

(** A raise of the loop: some completed reductions, then a turn that
    aborts; the state raised with is the state that turn left. *)
Lemma act_loop_Raised (fuel : nat) sym d s e s' :
  act_loop __debug__ fuel sym d s = Some (Raised e s') ->
  exists s1, rtc (step sym d) s s1 /\ act_iter __debug__ sym d s1 = Abort e s'.
Proof.
  revert s. induction fuel as [|fuel IH]; intros s; [done|]. simpl.
  destruct (act_iter _ sym d s) as [s2|s2|e2 s2] eqn:Hi.
  - done.
  - intros H. apply IH in H as (s1 & Hrtc & Hab).
    exists s1. split; [|done]. by eapply rtc_l.
  - intros [= <- <-]. exists s. split; [apply rtc_refl|done].
Qed.

Lemma act_loop_Returned (fuel : nat) sym d s s' :
  act_loop __debug__ fuel sym d s = Some (Returned s') ->
  exists s1, rtc (step sym d) s s1 /\ act_iter __debug__ sym d s1 = Break s'.
Proof.
  revert s. induction fuel as [|fuel IH]; intros s; [done|]. simpl.
  destruct (act_iter _ sym d s) as [s2|s2|e2 s2] eqn:Hi.
  - intros [= <-]. exists s. split; [apply rtc_refl|done].
  - intros H. apply IH in H as (s1 & Hrtc & Hab).
    exists s1. split; [|done]. by eapply rtc_l.
  - done.
Qed.

Lemma act_loop_reaches_abort sym d s s1 e s' :
  rtc (step sym d) s s1 ->
  act_iter __debug__ sym d s1 = Abort e s' ->
  exists fuel, act_loop __debug__ fuel sym d s = Some (Raised e s').
Proof.
  intros Hrtc Hab. induction Hrtc as [s|s s2 s1 Hstep _ IH].
  - exists 1%nat. simpl. by rewrite Hab.
  - destruct (IH Hab) as [fuel Hf]. exists (S fuel). simpl.
    unfold reduce_step in Hstep. by rewrite Hstep.
Qed.

Lemma act_loop_reaches_break sym d s s1 s' :
  rtc (step sym d) s s1 ->
  act_iter __debug__ sym d s1 = Break s' ->
  exists fuel, act_loop __debug__ fuel sym d s = Some (Returned s').
Proof.
  intros Hrtc Hab. induction Hrtc as [s|s s2 s1 Hstep _ IH].
  - exists 1%nat. simpl. by rewrite Hab.
  - destruct (IH Hab) as [fuel Hf]. exists (S fuel). simpl.
    unfold reduce_step in Hstep. by rewrite Hstep.
Qed.

(** A completed reduction of the loop is a completed [_reduce]. *)
Lemma reduce_step_reduce sym d s s' :
  step sym d s s' ->
  exists p s1 s2,
    s1 = (if _verbose s then print (PrintAction (ReduceAction p)) s else s)
    /\ _reduce __debug__ p s1 = Returned s2
    /\ s' = (if _verbose s2 then _printStack s2 else s2).
Proof.
  unfold reduce_step, act_iter.
  destruct (py_getitem (_stack s) (-1)) as [top|]; [|done].
  destruct (py_getitem (_action _) _) as [row|]; [|done].
  destruct (row !! d) as [actions|]; [|done].
  destruct (__debug__ && _); [done|].
  destruct (actions !! 0%nat) as [[t|p]|]; [done| |done].
  destruct (_reduce _ p _) as [s2|e2 s2] eqn:Hr; [|done].
  intros [= <-]. by eexists p, _, s2.
Qed.

Lemma token_UnexpectedToken_inv (fuel : nat) tok s e s' :
  token __debug__ fuel tok s = Some (Raised e s') ->
  is_UnexpectedToken e = true ->
  exists d,
    _sym2spec (_spec s) !! sym_type tok = Some d
    /\ rtc (step tok d) (act_entry tok s) s'
    /\ no_action d s' = true
    /\ e = UnexpectedToken tok.
Proof.
  unfold token. destruct (_ !! sym_type tok) as [d|]; [|by intros [= <- _]].
  rewrite _act_unfold. intros H He.
  apply act_loop_Raised in H as (s1 & Hrtc & Hab).
  destruct (act_iter_UnexpectedToken _ _ _ _ _ Hab He) as (Hno & -> & ->).
  by exists d.
Qed.

Lemma token_reaches_no_action tok s d s1 :
  _sym2spec (_spec s) !! sym_type tok = Some d ->
  rtc (step tok d) (act_entry tok s) s1 ->
  no_action d s1 = true ->
  exists fuel, token __debug__ fuel tok s = Some (Raised (UnexpectedToken tok) s1).
Proof.
  intros Hd Hrtc Hno. unfold token. rewrite Hd.
  eapply act_loop_reaches_abort; [done|]. by apply act_iter_no_action.
Qed.

Lemma token_fuel_mono (fuel fuel' : nat) tok s o :
  token __debug__ fuel tok s = Some o ->
  (fuel <= fuel')%nat ->
  token __debug__ fuel' tok s = Some o.
Proof.
  unfold token. destruct (_ !! sym_type tok); [|done].
  apply act_loop_fuel_mono.
Qed.

Lemma eoi_unfold (fuel : nat) s :
  eoi __debug__ fuel s
  = match token __debug__ fuel (new_object EndOfInputT (heap s)).1
            (set_heap (new_object EndOfInputT (heap s)).2 s) with
    | None => None
    | Some (Raised e s1) => Some (Raised e s1)
    | Some (Returned s1) =>
        Some (eoi_finish __debug__ (new_object EndOfInputT (heap s)).1 s1)
    end.
Proof. reflexivity. Qed.


Lemma eoi_finish_not_UnexpectedToken tok s1 e s' :
  eoi_finish __debug__ tok s1 = Raised e s' -> is_UnexpectedToken e = false.
Proof.
  unfold eoi_finish.
  destruct __debug__.
  - destruct (py_getitem (_stack s1) (-1)) as [top|]; [|by intros [= <- _]].
    destruct (decide _); [|by intros [= <- _]].
    destruct (_stack _) as [|x l]; [by intros [= <- _]|].
    destruct (py_getitem _ 1) as [slot|]; [|by intros [= <- _]].
    cbn [_spec set_start set_stack].
    destruct (_ !! sym_type slot.1); [|by intros [= <- _]].
    destruct (decide _); [done|by intros [= <- _]].
  - destruct (_stack _) as [|x l]; [by intros [= <- _]|].
    destruct (py_getitem _ 1) as [slot|]; [done|by intros [= <- _]].
Qed.

End LoopFacts.

(** ** Feeding a sequence of tokens *)

Section FeedFacts.

Variable __debug__ : bool.

Lemma feed_fuel_mono (fuel fuel' : nat) toks s r :
  feed __debug__ fuel toks s = Some r ->
  (fuel <= fuel')%nat ->
  feed __debug__ fuel' toks s = Some r.
Proof.
  revert s r. induction toks as [|tok toks IH]; intros s r; [done|]. simpl.
  destruct (token _ fuel tok s) as [[s1|e s1]|] eqn:Ht; [| |done]; intros H Hle.
  - rewrite (token_fuel_mono _ _ _ _ _ _ Ht Hle).
    destruct (feed _ fuel toks s1) as [[i o]|] eqn:Hf; [|done].
    by rewrite (IH _ _ Hf Hle).
  - by rewrite (token_fuel_mono _ _ _ _ _ _ Ht Hle).
Qed.

Lemma feed_Returned_length (fuel : nat) toks s i s' :
  feed __debug__ fuel toks s = Some (i, Returned s') -> i = length toks.
Proof.
  revert s i. induction toks as [|tok toks IH]; intros s i; simpl.
  - by intros [= <- _].
  - destruct (token _ fuel tok s) as [[s1|e s1]|]; [|done|done].
    destruct (feed _ fuel toks s1) as [[j o]|] eqn:Hf; [|done].
    intros [= <- ->]. f_equal. by eapply IH.
Qed.

(** A raise while feeding: the tokens before it were all consumed, and
    the raise comes from the call on the token at that position. *)
Lemma feed_Raised_inv (fuel : nat) toks s i e s' :
  feed __debug__ fuel toks s = Some (i, Raised e s') ->
  exists tok si,
    toks !! i = Some tok
    /\ feed __debug__ fuel (take i toks) s = Some (i, Returned si)
    /\ token __debug__ fuel tok si = Some (Raised e s').
Proof.
  revert s i. induction toks as [|tok toks IH]; intros s i; simpl; [done|].
  destruct (token _ fuel tok s) as [[s1|e1 s1]|] eqn:Ht; [| |done].
  - destruct (feed _ fuel toks s1) as [[j o]|] eqn:Hf; [|done].
    intros [= <- ->]. apply IH in Hf as (tok' & si & Hl & Hp & Hr).
    exists tok', si. simpl. by rewrite Ht, Hp.
  - intros [= <- <- <-]. by exists tok, s.
Qed.

Lemma feed_prefix_then_raise (fuel : nat) toks s i tok si e s' :
  toks !! i = Some tok ->
  feed __debug__ fuel (take i toks) s = Some (i, Returned si) ->
  token __debug__ fuel tok si = Some (Raised e s') ->
  feed __debug__ fuel toks s = Some (i, Raised e s').
Proof.
  revert s i. induction toks as [|t toks IH]; intros s i; [done|].
  destruct i as [|i]; simpl.
  - intros [= ->] [= ->] Ht. by rewrite Ht.
  - intros Hl. destruct (token _ fuel t s) as [[s1|e1 s1]|]; [|done|done].
    destruct (feed _ fuel (take i toks) s1) as [[j o]|] eqn:Hf; [|done].
    intros [= -> ->] Ht. by rewrite (IH _ _ Hl Hf Ht).
Qed.

End FeedFacts.

(** C1 (when [UnexpectedToken] is raised).  [token(tok)] raises
    [UnexpectedToken] exactly when [tok]'s class has a descriptor and the
    decision loop, after some completed reductions, stands on a state whose
    action-table row has no entry for that descriptor; the same holds for
    [eoi()] with the end-of-input object it creates.  Over a sequence of
    tokens the raise comes at position [i] exactly when the tokens before
    [i] were all consumed and the loop for token [i] reaches such a
    state. *)
Theorem unexpected_token_iff (debug : bool) :
  (forall tok s,
     (exists fuel e s',
        token debug fuel tok s = Some (Raised e s') /\ is_UnexpectedToken e = true)
     <-> (exists d s1,
            _sym2spec (_spec s) !! sym_type tok = Some d
            /\ rtc (reduce_step debug tok d) (act_entry tok s) s1
            /\ no_action d s1 = true))
  /\ (forall s,
        let tok := (new_object EndOfInputT (heap s)).1 in
        let s0 := set_heap (new_object EndOfInputT (heap s)).2 s in
        (exists fuel e s',
           eoi debug fuel s = Some (Raised e s') /\ is_UnexpectedToken e = true)
        <-> (exists d s1,
               _sym2spec (_spec s) !! EndOfInputT = Some d
               /\ rtc (reduce_step debug tok d) (act_entry tok s0) s1
               /\ no_action d s1 = true))
  /\ (forall toks s i s',
        (exists fuel tok,
           feed debug fuel toks s = Some (i, Raised (UnexpectedToken tok) s'))
        <-> (exists fuel tok si d,
               toks !! i = Some tok
               /\ feed debug fuel (take i toks) s = Some (i, Returned si)
               /\ _sym2spec (_spec si) !! sym_type tok = Some d
               /\ rtc (reduce_step debug tok d) (act_entry tok si) s'
               /\ no_action d s' = true)).
Proof.
  split_and!.
  - intros tok s. split.
    + intros (fuel & e & s' & H & He).
      apply token_UnexpectedToken_inv in H as (d & Hd & Hrtc & Hno & _); [|done].
      by exists d, s'.
    + intros (d & s1 & Hd & Hrtc & Hno).
      destruct (token_reaches_no_action debug _ _ _ _ Hd Hrtc Hno) as [fuel H].
      by exists fuel, (UnexpectedToken tok), s1.
  - intros s tok s0. subst tok s0. split.
    + intros (fuel & e & s' & H & He). rewrite eoi_unfold in H.
      destruct (token debug fuel _ _) as [[s1|e1 s1]|] eqn:Ht; [| |done].
      * injection H as H. apply eoi_finish_not_UnexpectedToken in H. congruence.
      * injection H as -> ->.
        apply token_UnexpectedToken_inv in Ht as (d & Hd & Hrtc & Hno & _); [|done].
        by exists d, s'.
    + intros (d & s1 & Hd & Hrtc & Hno).
      destruct (token_reaches_no_action debug (new_object EndOfInputT (heap s)).1
                  (set_heap (new_object EndOfInputT (heap s)).2 s) d s1 Hd Hrtc Hno)
        as [fuel H].
      exists fuel, (UnexpectedToken (new_object EndOfInputT (heap s)).1), s1.
      split; [|done]. by rewrite eoi_unfold, H.
  - intros toks s i s'. split.
    + intros (fuel & tok & H).
      apply feed_Raised_inv in H as (tok' & si & Hl & Hp & Ht).
      apply token_UnexpectedToken_inv in Ht as (d & Hd & Hrtc & Hno & [= ->]); [|done].
      by exists fuel, tok', si, d.
    + intros (fuel & tok & si & d & Hl & Hp & Hd & Hrtc & Hno).
      destruct (token_reaches_no_action debug _ _ _ _ Hd Hrtc Hno) as [fuel' Ht].
      exists (max fuel fuel'), tok.
      eapply feed_prefix_then_raise; [done| |].
      * eapply feed_fuel_mono; [done|lia].
      * eapply token_fuel_mono; [done|lia].
Qed.

(** C5 (the raise leaves the stack as it is).  When [token()] or [eoi()]
    raises [UnexpectedToken], the state it leaves is the state on which the
    failing turn of the loop started: the state reached from the call's
    entry by the reductions completed in this call (printing the trace
    header does not touch the stack), and the failing turn changes
    nothing.  Nothing is rolled back to the stack of the call's entry. *)
Theorem unexpected_token_keeps_stack (debug : bool) (fuel : nat) (op : Op)
    (s s' : State) (e : Exn) :
  run_op debug fuel op s = Some (Raised e s') ->
  is_UnexpectedToken e = true ->
  exists tok d s0,
    e = UnexpectedToken tok
    /\ match op with
       | OpToken t => tok = t /\ s0 = s
       | OpEoi => tok = (new_object EndOfInputT (heap s)).1
                  /\ s0 = set_heap (new_object EndOfInputT (heap s)).2 s
       | _ => False
       end
    /\ _sym2spec (_spec s) !! sym_type tok = Some d
    /\ _stack (act_entry tok s0) = _stack s
    /\ rtc (reduce_step debug tok d) (act_entry tok s0) s'
    /\ act_iter debug tok d s' = Abort e s'.
Proof.
  intros H He.
  assert (Hentry : forall t s1, _stack (act_entry t s1) = _stack s1)
    by (intros t s1; unfold act_entry; by destruct (_verbose s1)).
  destruct op as [t| | |b]; simpl in H.
  - apply token_UnexpectedToken_inv in H as (d & Hd & Hrtc & Hno & ->); [|done].
    exists t, d, s. split_and!; try done. by apply act_iter_no_action.
  - rewrite eoi_unfold in H.
    destruct (token debug fuel _ _) as [[s1|e1 s1]|] eqn:Ht; [| |done].
    + injection H as H. apply eoi_finish_not_UnexpectedToken in H. congruence.
    + injection H as -> ->.
      apply token_UnexpectedToken_inv in Ht as (d & Hd & Hrtc & Hno & ->); [|done].
      eexists _, d, _. split; [done|]. split; [done|]. split; [exact Hd|].
      split; [by rewrite Hentry|]. split; [done|]. by apply act_iter_no_action.
  - done.
  - done.
Qed.

(** After [number ')'] the call on [')'] reduces twice and then finds no
    action: the raise leaves [E] on the stack, not the [number] that was
    there when the call was entered. *)
Lemma unexpected_token_keeps_stack_witness :
  let s := Arith.after true [OpToken Arith.num3] in
  let s' := Arith.after true [OpToken Arith.num3; OpToken Arith.rpar] in
  let e := UnexpectedToken Arith.rpar in
  run_op true 10 (OpToken Arith.rpar) s = Some (Raised e s')
  /\ _stack s = [(mkSymbol 5 EpsilonT, 0); (Arith.num3, 3)]
  /\ _stack s' = [(mkSymbol 5 EpsilonT, 0); (mkSymbol 7 Arith.ET, 1)]
  /\ exists tok d s0,
       e = UnexpectedToken tok
       /\ (tok = Arith.rpar /\ s0 = s)
       /\ _sym2spec (_spec s) !! sym_type tok = Some d
       /\ _stack (act_entry tok s0) = _stack s
       /\ rtc (reduce_step true tok d) (act_entry tok s0) s'
       /\ act_iter true tok d s' = Abort e s'.
Proof.
  intros s s' e.
  assert (H : run_op true 10 (OpToken Arith.rpar) s = Some (Raised e s'))
    by (apply (arith_step_raised true [OpToken Arith.num3] (OpToken Arith.rpar) e);
        by_vm).
  split; [exact H|]. split; [by_vm|].
  split; [by_vm|].
  exact (unexpected_token_keeps_stack true 10 (OpToken Arith.rpar) s s' e H eq_refl).
Defined.

(** ** Tracing does not interfere *)

Section TraceFacts.

Variable __debug__ : bool.

Lemma same_parse_refl s : same_parse s s.
Proof. by repeat split. Qed.

Lemma same_parse_sym s1 s2 : same_parse s1 s2 -> same_parse s2 s1.
Proof. intros (? & ? & ? & ?). by repeat split. Qed.

Lemma same_parse_trans s1 s2 s3 :
  same_parse s1 s2 -> same_parse s2 s3 -> same_parse s1 s3.
Proof. intros (? & ? & ? & ?) (? & ? & ? & ?). repeat split; congruence. Qed.

Lemma same_parse_print ev s : same_parse (print ev s) s.
Proof. by repeat split. Qed.

Lemma same_parse_set_verbose b s : same_parse (set_verbose b s) s.
Proof. by repeat split. Qed.

Lemma same_parse_if_print (b : bool) ev s1 s2 :
  same_parse s1 s2 -> same_parse (if b then print ev s1 else s1) s2.
Proof.
  intros H. destruct b; [|done].
  eapply same_parse_trans; [apply same_parse_print|done].
Qed.

Lemma same_parse_if_printStack (b : bool) s1 s2 :
  same_parse s1 s2 -> same_parse (if b then _printStack s1 else s1) s2.
Proof. apply same_parse_if_print. Qed.

Lemma same_parse_set_heap h s1 s2 :
  same_parse s1 s2 -> same_parse (set_heap h s1) (set_heap h s2).
Proof. intros (? & ? & ? & ?). by repeat split. Qed.

Lemma same_parse_set_stack st s1 s2 :
  same_parse s1 s2 -> same_parse (set_stack st s1) (set_stack st s2).
Proof. intros (? & ? & ? & ?). by repeat split. Qed.

Lemma same_parse_set_start v s1 s2 :
  same_parse s1 s2 -> same_parse (set_start v s1) (set_start v s2).
Proof. intros (? & ? & ? & ?). by repeat split. Qed.

Lemma _reduce_same_parse p s1 s2 :
  same_parse s1 s2 ->
  same_outcome (Some (_reduce __debug__ p s1)) (Some (_reduce __debug__ p s2)).
Proof.
  intros H. pose proof H as (Hsp & Hst & Hsk & Hh).
  unfold _reduce. rewrite Hsk, Hh.
  destruct (collect_rhs _ _) as [syms|]; [|by split].
  destruct (_production _ p syms (heap s2)) as [r h|e h];
    [|split; [done|by apply same_parse_set_heap]].
  cbn [_stack set_heap]. rewrite Hsk.
  destruct (pop_n _ _) as [st|];
    [|split; [done|by apply same_parse_set_stack, same_parse_set_heap]].
  assert (Hs2 : same_parse (set_stack st (set_heap h s1)) (set_stack st (set_heap h s2)))
    by (by apply same_parse_set_stack, same_parse_set_heap).
  destruct (py_getitem st (-1)) as [top|]; [|by split].
  cbn [_spec set_stack set_heap]. rewrite Hsp.
  destruct (py_getitem (_goto _) _) as [row|]; [|by split].
  destruct (row !! _) as [g|]; [|by split].
  by apply same_parse_set_stack.
Qed.

Lemma act_iter_same_parse sym d s1 s2 :
  same_parse s1 s2 ->
  same_iter (act_iter __debug__ sym d s1) (act_iter __debug__ sym d s2).
Proof.
  intros H. pose proof H as (Hsp & Hst & Hsk & Hh).
  unfold act_iter. rewrite Hsk, Hsp.
  destruct (py_getitem (_stack s2) (-1)) as [top|]; [|by split].
  destruct (py_getitem (_action _) _) as [row|]; [|by split].
  destruct (row !! d) as [actions|]; [|by split].
  destruct (__debug__ && _); [by split|].
  destruct (actions !! 0%nat) as [action|]; [|by split].
  set (t1 := if _verbose s1 then print (PrintAction action) s1 else s1).
  set (t2 := if _verbose s2 then print (PrintAction action) s2 else s2).
  assert (Ht : same_parse t1 t2).
  { apply same_parse_if_print, same_parse_sym, same_parse_if_print.
    by apply same_parse_sym. }
  destruct action as [t|p].
  - simpl. destruct Ht as (? & ? & Hk & ?). rewrite Hk. by repeat split.
  - pose proof (_reduce_same_parse p t1 t2 Ht) as Hr. simpl in Hr.
    destruct (_reduce _ p t1) as [a|e a], (_reduce _ p t2) as [b|e' b]; try done.
    simpl. apply same_parse_if_printStack, same_parse_sym, same_parse_if_printStack.
    by apply same_parse_sym.
Qed.

Lemma act_loop_same_parse (fuel : nat) sym d s1 s2 :
  same_parse s1 s2 ->
  same_outcome (act_loop __debug__ fuel sym d s1) (act_loop __debug__ fuel sym d s2).
Proof.
  revert s1 s2. induction fuel as [|fuel IH]; intros s1 s2 H; [done|]. simpl.
  pose proof (act_iter_same_parse sym d s1 s2 H) as Hi.
  destruct (act_iter _ sym d s1) as [a|a|e a], (act_iter _ sym d s2) as [b|b|e' b];
    try done.
  by apply IH.
Qed.

Lemma act_entry_same_parse sym s : same_parse (act_entry sym s) s.
Proof.
  unfold act_entry. destruct (_verbose s); [|apply same_parse_refl].
  by repeat split.
Qed.

Lemma token_same_parse (fuel : nat) tok s1 s2 :
  same_parse s1 s2 ->
  same_outcome (token __debug__ fuel tok s1) (token __debug__ fuel tok s2).
Proof.
  intros H. pose proof H as (Hsp & _). unfold token. rewrite Hsp.
  destruct (_ !! sym_type tok) as [d|]; [|by split].
  rewrite !_act_unfold. apply act_loop_same_parse.
  eapply same_parse_trans; [apply act_entry_same_parse|].
  eapply same_parse_trans; [done|]. apply same_parse_sym, act_entry_same_parse.
Qed.

Lemma eoi_finish_same_parse tok s1 s2 :
  same_parse s1 s2 ->
  same_outcome (Some (eoi_finish __debug__ tok s1)) (Some (eoi_finish __debug__ tok s2)).
Proof.
  intros H. pose proof H as (Hsp & Hst & Hsk & Hh).
  unfold eoi_finish. rewrite Hsk.
  destruct (if __debug__ then _ else _) as [e|]; [by split|].
  set (t1 := if _verbose s1 then _ else s1).
  set (t2 := if _verbose s2 then _ else s2).
  assert (Ht : same_parse t1 t2).
  { unfold t1, t2.
    destruct (_verbose s1), (_verbose s2); by repeat split. }
  pose proof Ht as (Htp & _ & Htk & _). rewrite Htk.
  destruct (_stack t2) as [|x l] eqn:Hl; [by split|]. rewrite <- Hl.
  cbn [_stack set_stack].
  assert (Hs3 : same_parse (set_stack (removelast (_stack t2)) t1)
                           (set_stack (removelast (_stack t2)) t2))
    by (by apply same_parse_set_stack).
  destruct (py_getitem _ 1) as [slot|]; [|by split].
  cbn [_spec set_start set_stack]. rewrite Htp.
  assert (Hs4 : same_parse
                  (set_start (Some [slot.1]) (set_stack (removelast (_stack t2)) t1))
                  (set_start (Some [slot.1]) (set_stack (removelast (_stack t2)) t2)))
    by (by apply same_parse_set_start).
  destruct __debug__; [|done].
  destruct (_ !! sym_type slot.1) as [d|]; [|by split].
  destruct (decide _); [done|by split].
Qed.

Lemma eoi_same_parse (fuel : nat) s1 s2 :
  same_parse s1 s2 ->
  same_outcome (eoi __debug__ fuel s1) (eoi __debug__ fuel s2).
Proof.
  intros H. pose proof H as (Hsp & Hst & Hsk & Hh).
  rewrite !eoi_unfold, Hh.
  pose proof (token_same_parse fuel (new_object EndOfInputT (heap s2)).1
                (set_heap (new_object EndOfInputT (heap s2)).2 s1)
                (set_heap (new_object EndOfInputT (heap s2)).2 s2)
                (same_parse_set_heap _ _ _ H)) as Ht.
  destruct (token _ fuel _ (set_heap _ s1)) as [[a|e a]|],
           (token _ fuel _ (set_heap _ s2)) as [[b|e' b]|]; try done.
  by apply eoi_finish_same_parse.
Qed.

Lemma reset_same_parse s1 s2 :
  same_parse s1 s2 -> same_parse (reset s1) (reset s2).
Proof. intros (? & ? & ? & Hh). unfold reset. simpl. rewrite Hh. by repeat split. Qed.

Lemma run_op_same_parse (fuel : nat) op s1 s2 :
  same_parse s1 s2 ->
  same_outcome (run_op __debug__ fuel op s1) (run_op __debug__ fuel op s2).
Proof.
  intros H. destruct op as [tok| | |b]; simpl.
  - by apply token_same_parse.
  - by apply eoi_same_parse.
  - by apply reset_same_parse.
  - destruct H as (? & ? & ? & ?). by repeat split.
Qed.

Lemma run_same_parse (fuel : nat) ops s1 s2 :
  same_parse s1 s2 ->
  same_outcome (run __debug__ fuel ops s1) (run __debug__ fuel ops s2).
Proof.
  revert s1 s2. induction ops as [|op ops IH]; intros s1 s2 H; [done|]. simpl.
  pose proof (run_op_same_parse fuel op s1 s2 H) as Ho.
  destruct (run_op _ fuel op s1) as [[a|e a]|], (run_op _ fuel op s2) as [[b|e' b]|];
    try done.
  by apply IH.
Qed.

End TraceFacts.

(** ** Construction, reset and the verbose flag *)

Lemma __init___Instance (debug exact : bool) spec h out s :
  __init__ debug exact spec h out = Instance s ->
  s = set_verbose false (reset (mkState spec None [] false h out)).
Proof.
  unfold __init__.
  destruct (debug && exact && _); [done|].
  destruct (debug && negb _); [done|]. by intros [= <-].
Qed.

(** C7 (tracing is observational and off by default).  Two runs of the
    same calls from states that agree on everything but the verbose flag
    and the text already printed end alike: the same exception or normal
    return, and the same specification, result, stack and store.  A newly
    constructed engine has the flag off. *)
Theorem tracing_is_observational (debug : bool) :
  (forall fuel ops s1 s2,
     same_parse s1 s2 ->
     same_outcome (run debug fuel ops s1) (run debug fuel ops s2))
  /\ (forall fuel ops s b,
        same_outcome (run debug fuel ops (setVerbose b s)) (run debug fuel ops s))
  /\ (forall exact spec h out s,
        __init__ debug exact spec h out = Instance s -> _verbose s = false).
Proof.
  split_and!.
  - intros fuel ops s1 s2. apply run_same_parse.
  - intros fuel ops s b. apply run_same_parse, same_parse_set_verbose.
  - intros exact spec h out s H. apply __init___Instance in H as ->. done.
Qed.

(** Parsing [3 + 4] with tracing on prints the trace and gives the same
    result, stack and store as with tracing off. *)
Lemma tracing_is_observational_witness :
  let ops := [OpToken Arith.num3; OpToken Arith.plus; OpToken Arith.num4; OpEoi] in
  let quiet := Arith.fresh true in
  let loud := setVerbose true quiet in
  same_outcome (run true 10 ops loud) (run true 10 ops quiet)
  /\ Arith.result_values (Arith.state_after (run true 10 ops loud) loud)
     = Some [(Arith.ET, 7)]
  /\ stdout (Arith.state_after (run true 10 ops quiet) quiet) = []
  /\ length (stdout (Arith.state_after (run true 10 ops loud) loud)) = 22%nat.
Proof.
  intros ops quiet loud.
  split; [exact (proj1 (proj2 (tracing_is_observational true)) 10%nat ops quiet true)|].
  split; [by_vm|]. split; by_vm.
Defined.

(** C10 (reset keeps the verbose flag).  [reset()] puts the result and the
    stack back to their initial values and leaves the verbose flag as it
    is: after the flag was set to [b], a reset still has it at [b]; only
    the constructor sets it to false. *)
Theorem reset_keeps_verbose (debug : bool) :
  (forall s,
     _verbose (reset s) = _verbose s
     /\ _start (reset s) = None
     /\ _stack (reset s) = [((new_object EpsilonT (heap s)).1, 0)])
  /\ (forall s b, _verbose (reset (setVerbose b s)) = b)
  /\ (forall exact spec h out s,
        __init__ debug exact spec h out = Instance s -> _verbose s = false).
Proof.
  split_and!.
  - intros s. by split_and!.
  - intros s b. done.
  - intros exact spec h out s H. apply __init___Instance in H as ->. done.
Qed.

(** C6 (reset gives back a fresh parser).  Whatever state the instance is
    in, [reset()] clears the result and leaves the single entry (bottom
    sentinel, state 0) on the stack; the instance then agrees with one
    constructed at that moment from the same specification in everything
    but the verbose flag, and every later sequence of calls ends alike on
    both: the same returns and exceptions, results, stacks and store. *)
Theorem reset_like_fresh (debug exact : bool) (s f : State) :
  __init__ debug exact (_spec s) (heap s) (stdout s) = Instance f ->
  _start (reset s) = None
  /\ _stack (reset s) = [(mkSymbol (next_id (heap s)) EpsilonT, 0)]
  /\ _spec (reset s) = _spec f
  /\ _start (reset s) = _start f
  /\ _stack (reset s) = _stack f
  /\ heap (reset s) = heap f
  /\ stdout (reset s) = stdout f
  /\ forall fuel ops,
       same_outcome (run debug fuel ops (reset s)) (run debug fuel ops f).
Proof.
  intros H. apply __init___Instance in H as ->.
  split_and!; try done.
  intros fuel ops. apply run_same_parse. by repeat split.
Qed.

(** A parser left in the middle of [3 + )], with an error behind it and
    tracing switched on, is reset. *)
Lemma reset_like_fresh_witness :
  let s := Arith.state_after
             (run true 10 [OpSetVerbose true; OpToken Arith.num3; OpToken Arith.plus;
                           OpToken Arith.rpar] (Arith.fresh true))
             (Arith.fresh true) in
  let f := set_verbose false (reset s) in
  let ops := [OpToken Arith.num4; OpEoi] in
  __init__ true true (_spec s) (heap s) (stdout s) = Instance f
  /\ length (_stack s) = 3%nat
  /\ _verbose (reset s) = true
  /\ Arith.result_values (Arith.state_after (run true 10 ops (reset s)) s)
     = Some [(Arith.ET, 4)]
  /\ _start (reset s) = None
  /\ _stack (reset s) = [(mkSymbol (next_id (heap s)) EpsilonT, 0)]
  /\ _spec (reset s) = _spec f
  /\ _start (reset s) = _start f
  /\ _stack (reset s) = _stack f
  /\ heap (reset s) = heap f
  /\ stdout (reset s) = stdout f
  /\ forall fuel ops,
       same_outcome (run true fuel ops (reset s)) (run true fuel ops f).
Proof.
  intros s f ops.
  assert (H : __init__ true true (_spec s) (heap s) (stdout s) = Instance f)
    by (apply __init___of_state; by_vm).
  split; [exact H|]. split; [by_vm|].
  split; [by_vm|]. split; [by_vm|].
  exact (reset_like_fresh true true s f H).
Defined.

(** C8, on the code.  With assertions enabled ([__debug__] true, the
    interpreter's default) the constructor raises [AssertionError] for every
    specification whose conflict count is not zero, and no instance is
    made. *)
Theorem init_refuses_conflicts (exact : bool) (spec : Spec) (h : Store)
    (out : list TraceEvent) :
  _nConflicts spec <> 0 ->
  __init__ true exact spec h out = CtorRaised AssertionError.
Proof.
  intros H. unfold __init__. simpl.
  destruct (exact && negb (pureLR spec)); [done|].
  destruct (Z.eqb_spec (_nConflicts spec) 0); done.
Qed.

Lemma init_refuses_conflicts_witness :
  _nConflicts Conflicted.spec <> 0
  /\ __init__ true true Conflicted.spec Arith.store0 [] = CtorRaised AssertionError.
Proof.
  assert (H : _nConflicts Conflicted.spec <> 0) by (simpl; lia).
  split; [exact H|].
  exact (init_refuses_conflicts true Conflicted.spec Arith.store0 [] H).
Defined.

(** C8 as stated fails when assertions are stripped ([__debug__] false):
    the constructor returns an instance for a specification with a
    conflict, and the instance parses. *)
Lemma init_accepts_conflicts_without_asserts :
  _nConflicts Conflicted.spec = 1
  /\ exists s,
       __init__ false true Conflicted.spec Arith.store0 [] = Instance s
       /\ exists s',
            run false 10 [OpToken Arith.num3; OpEoi] s = Some (Returned s')
            /\ Arith.result_values s' = Some [(Arith.ET, 3)].
Proof.
  split; [reflexivity|].
  exists (set_verbose false
            (reset (mkState Conflicted.spec None [] false Arith.store0 []))).
  split; [reflexivity|].
  exists (Arith.state_after
            (run false 10 [OpToken Arith.num3; OpEoi]
               (set_verbose false
                  (reset (mkState Conflicted.spec None [] false Arith.store0 []))))
            (Arith.fresh false)).
  split; [apply outcome_returned|]; by_vm.
Qed.

(** ** The stack invariant *)

Section InvariantFacts.

Variable __debug__ : bool.

Lemma stack_inv_spec s :
  stack_inv s = true <->
  exists eps rest, _stack s = (eps, 0) :: rest /\ sym_type eps = EpsilonT.
Proof.
  unfold stack_inv. destruct (_stack s) as [|[eps q] rest].
  - split; [done|]. by intros (? & ? & ? & ?).
  - rewrite andb_true_iff, bool_decide_eq_true, Z.eqb_eq. split.
    + intros [? ->]. by exists eps, rest.
    + intros (? & ? & [= -> -> ->] & ?). done.
Qed.

Lemma stack_inv_stack s s' :
  _stack s' = _stack s -> stack_inv s' = stack_inv s.
Proof. unfold stack_inv. by intros ->. Qed.

Lemma stack_inv_take s s' (k : nat) :
  stack_inv s = true -> (1 <= k)%nat ->
  _stack s' = take k (_stack s) -> stack_inv s' = true.
Proof.
  intros H Hk Hs. apply stack_inv_spec in H as (eps & rest & Hst & He).
  apply stack_inv_spec. rewrite Hs, Hst.
  destruct k as [|k]; [lia|]. simpl. by eexists _, _.
Qed.

Lemma stack_inv_take_snoc s s' (k : nat) x :
  stack_inv s = true -> (1 <= k)%nat ->
  _stack s' = take k (_stack s) ++ [x] -> stack_inv s' = true.
Proof.
  intros H Hk Hs. apply stack_inv_spec in H as (eps & rest & Hst & He).
  apply stack_inv_spec. rewrite Hs, Hst.
  destruct k as [|k]; [lia|]. simpl. by eexists _, _.
Qed.

Lemma stack_inv_snoc s s' x :
  stack_inv s = true -> _stack s' = _stack s ++ [x] -> stack_inv s' = true.
Proof.
  intros H Hs. apply stack_inv_spec in H as (eps & rest & Hst & He).
  apply stack_inv_spec. rewrite Hs, Hst. simpl. by eexists _, _.
Qed.

(** Whatever way a fitting [_reduce] ends, it leaves the bottom entry in
    place. *)
Lemma _reduce_stack_inv p s :
  stack_inv s = true ->
  (length (rhs p) < length (_stack s))%nat ->
  stack_inv (outcome_state (_reduce __debug__ p s)) = true.
Proof.
  intros Hinv Hfit. unfold _reduce.
  destruct (collect_rhs _ _) as [syms|]; [|done].
  destruct (_production _ p syms (heap s)) as [r h|e h]; [|done].
  cbn [_stack set_heap].
  destruct (pop_n _ _) as [st|] eqn:Hpop.
  2:{ apply pop_n_None in Hpop. lia. }
  apply pop_n_Some in Hpop as [_ ->].
  set (k := (length (_stack s) - length (rhs p))%nat).
  assert (Hk : (1 <= k)%nat) by (unfold k; lia).
  destruct (py_getitem (take k _) (-1)) as [top|];
    [|by apply (stack_inv_take s _ k)].
  cbn [_spec set_stack set_heap].
  destruct (py_getitem (_goto _) _) as [row|]; [|by apply (stack_inv_take s _ k)].
  destruct (row !! _) as [g|]; [|by apply (stack_inv_take s _ k)].
  by apply (stack_inv_take_snoc s _ k (r, g)).
Qed.

Lemma act_iter_stack_inv sym d s :
  stack_inv s = true ->
  (forall p, pending_reduce d s = Some p ->
             (length (rhs p) < length (_stack s))%nat) ->
  stack_inv (iter_state (act_iter __debug__ sym d s)) = true.
Proof.
  intros Hinv Hfit. unfold pending_reduce in Hfit. unfold act_iter.
  destruct (py_getitem (_stack s) (-1)) as [top|]; [|done].
  destruct (py_getitem (_action _) _) as [row|]; [|done].
  destruct (row !! d) as [actions|]; [|done].
  destruct (__debug__ && _); [done|].
  destruct (actions !! 0%nat) as [[t|p]|]; [| |done].
  - simpl. eapply stack_inv_snoc; [exact Hinv|].
    by destruct (_verbose s).
  - set (s1 := if _verbose s then _ else s).
    assert (Hs1 : _stack s1 = _stack s) by (unfold s1; by destruct (_verbose s)).
    pose proof (_reduce_stack_inv p s1) as Hr.
    rewrite (stack_inv_stack _ _ Hs1), Hs1 in Hr.
    specialize (Hr Hinv (Hfit p eq_refl)).
    destruct (_reduce _ p s1) as [s2|e s2]; simpl in *; [|done].
    by destruct (_verbose s2).
Qed.

Lemma reductions_fit_here sym d s :
  reductions_fit __debug__ sym d s ->
  forall p, pending_reduce d s = Some p ->
            (length (rhs p) < length (_stack s))%nat.
Proof. intros H p. apply H, rtc_refl. Qed.

Lemma reductions_fit_step sym d s s' :
  reductions_fit __debug__ sym d s ->
  reduce_step __debug__ sym d s s' ->
  reductions_fit __debug__ sym d s'.
Proof. intros H Hstep s1 p Hrtc. apply H. by eapply rtc_l. Qed.

Lemma rtc_stack_inv sym d s s1 :
  stack_inv s = true ->
  reductions_fit __debug__ sym d s ->
  rtc (reduce_step __debug__ sym d) s s1 ->
  stack_inv s1 = true /\ reductions_fit __debug__ sym d s1.
Proof.
  intros Hinv Hfit Hrtc. induction Hrtc as [s|s s2 s1 Hstep _ IH]; [done|].
  apply IH.
  - pose proof (act_iter_stack_inv sym d s Hinv (reductions_fit_here _ _ _ Hfit)) as H.
    unfold reduce_step in Hstep. by rewrite Hstep in H.
  - by eapply reductions_fit_step.
Qed.

Lemma act_loop_stack_inv (fuel : nat) sym d s o :
  stack_inv s = true ->
  reductions_fit __debug__ sym d s ->
  act_loop __debug__ fuel sym d s = Some o ->
  stack_inv (outcome_state o) = true.
Proof.
  intros Hinv Hfit H. destruct o as [s'|e s'].
  - apply act_loop_Returned in H as (s1 & Hrtc & Hi).
    destruct (rtc_stack_inv _ _ _ _ Hinv Hfit Hrtc) as [Hinv1 Hfit1].
    pose proof (act_iter_stack_inv sym d s1 Hinv1 (reductions_fit_here _ _ _ Hfit1)) as Hs.
    by rewrite Hi in Hs.
  - apply act_loop_Raised in H as (s1 & Hrtc & Hi).
    destruct (rtc_stack_inv _ _ _ _ Hinv Hfit Hrtc) as [Hinv1 Hfit1].
    pose proof (act_iter_stack_inv sym d s1 Hinv1 (reductions_fit_here _ _ _ Hfit1)) as Hs.
    by rewrite Hi in Hs.
Qed.

Lemma act_entry_stack sym s : _stack (act_entry sym s) = _stack s.
Proof. unfold act_entry. by destruct (_verbose s). Qed.

Lemma token_stack_inv (fuel : nat) tok s o :
  stack_inv s = true ->
  (forall d, _sym2spec (_spec s) !! sym_type tok = Some d ->
             reductions_fit __debug__ tok d (act_entry tok s)) ->
  token __debug__ fuel tok s = Some o ->
  stack_inv (outcome_state o) = true.
Proof.
  intros Hinv Hfit. unfold token.
  destruct (_ !! sym_type tok) as [d|]; [|by intros [= <-]].
  rewrite _act_unfold. apply act_loop_stack_inv; [|by apply Hfit].
  by rewrite (stack_inv_stack _ _ (act_entry_stack tok s)).
Qed.

(** A shift leaves the incoming symbol on top of what was there. *)
Lemma act_iter_Break sym d s s' :
  act_iter __debug__ sym d s = Break s' ->
  exists t, _stack s' = _stack s ++ [(sym, t)].
Proof.
  unfold act_iter.
  destruct (py_getitem (_stack s) (-1)) as [top|]; [|done].
  destruct (py_getitem (_action _) _) as [row|]; [|done].
  destruct (row !! d) as [actions|]; [|done].
  destruct (__debug__ && _); [done|].
  destruct (actions !! 0%nat) as [[t|p]|]; [| |done].
  - intros [= <-]. exists t. by destruct (_verbose s).
  - by destruct (_reduce _ p _).
Qed.

Lemma eoi_finish_stack_inv tok s1 base x :
  _stack s1 = base ++ [x] ->
  (forall s0, _stack s0 = base -> stack_inv s0 = true) ->
  stack_inv (outcome_state (eoi_finish __debug__ tok s1)) = true.
Proof.
  intros Hst Hbase.
  assert (Hfull : forall s', _stack s' = base ++ [x] -> stack_inv s' = true).
  { intros s' Hs'. eapply (stack_inv_snoc (set_stack base s1)); [by apply Hbase|].
    by rewrite Hs'. }
  unfold eoi_finish.
  destruct (if __debug__ then _ else _) as [e|]; [by apply Hfull|].
  set (s2 := if _verbose s1 then _ else s1).
  assert (Hs2 : _stack s2 = base ++ [x]) by (unfold s2; by destruct (_verbose s1)).
  rewrite Hs2. destruct (base ++ [x]) as [|y l] eqn:E; [by destruct base|].
  rewrite <- E, removelast_last.
  cbn [_stack set_stack].
  destruct (py_getitem base 1) as [slot|]; [|by apply Hbase].
  cbn [_spec set_start set_stack].
  destruct __debug__; [|by apply Hbase].
  destruct (_ !! sym_type slot.1) as [d|]; [|by apply Hbase].
  destruct (decide _); by apply Hbase.
Qed.

Lemma token_Returned_stack (fuel : nat) tok s s' :
  stack_inv s = true ->
  (forall d, _sym2spec (_spec s) !! sym_type tok = Some d ->
             reductions_fit __debug__ tok d (act_entry tok s)) ->
  token __debug__ fuel tok s = Some (Returned s') ->
  exists s1 t, stack_inv s1 = true /\ _stack s' = _stack s1 ++ [(tok, t)].
Proof.
  intros Hinv Hfit. unfold token.
  destruct (_ !! sym_type tok) as [d|]; [|done].
  rewrite _act_unfold. intros H.
  apply act_loop_Returned in H as (s1 & Hrtc & Hi).
  assert (Hinv0 : stack_inv (act_entry tok s) = true)
    by (by rewrite (stack_inv_stack _ _ (act_entry_stack tok s))).
  destruct (rtc_stack_inv _ _ _ _ Hinv0 (Hfit d eq_refl) Hrtc) as [Hinv1 _].
  apply act_iter_Break in Hi as [t Ht]. by exists s1, t.
Qed.

Lemma run_op_stack_inv (fuel : nat) op s o :
  stack_inv s = true ->
  call_fits __debug__ op s ->
  run_op __debug__ fuel op s = Some o ->
  stack_inv (outcome_state o) = true.
Proof.
  intros Hinv Hfit. destruct op as [tok| | |b]; simpl in *.
  - by apply token_stack_inv.
  - rewrite eoi_unfold.
    set (tok := (new_object EndOfInputT (heap s)).1) in *.
    set (s0 := set_heap (new_object EndOfInputT (heap s)).2 s) in *.
    assert (Hinv0 : stack_inv s0 = true) by done.
    destruct (token _ fuel tok s0) as [[s1|e s1]|] eqn:Ht; [| |done].
    + intros [= <-].
      apply token_Returned_stack in Ht as (sb & t & Hsb & Hst); [|done|done].
      eapply eoi_finish_stack_inv; [exact Hst|].
      intros sx Hsx. by rewrite (stack_inv_stack _ _ Hsx).
    + intros [= <-]. by apply (token_stack_inv fuel tok s0 (Raised e s1)).
  - by intros [= <-].
  - by intros [= <-].
Qed.

Lemma fit_check_sound (fuel : nat) sym d s :
  fit_check __debug__ fuel sym d s = true ->
  reductions_fit __debug__ sym d s.
Proof.
  revert s. induction fuel as [|fuel IH]; intros s; [done|]. simpl.
  rewrite andb_true_iff. intros [Hhere Hnext] s1 p Hrtc.
  destruct Hrtc as [|s s2 s1 Hstep Hrtc].
  - intros Hp. rewrite Hp in Hhere. by apply Nat.ltb_lt.
  - unfold reduce_step in Hstep. rewrite Hstep in Hnext.
    by apply (IH s2 Hnext).
Qed.

End InvariantFacts.

(** C9 (stack invariant).  After construction and after [reset()] the stack
    is not empty and slot 0 holds the bottom sentinel at state 0; every
    [token()] and [eoi()] call started in such a state, whose reductions
    all find their right-hand side above the bottom entry, leaves such a
    state, whether it returns or raises.  In such a state the decision
    state is the state field of the top entry: it is the row of the action
    table the loop consults. *)
Theorem stack_invariant (debug : bool) :
  (forall s, stack_inv (reset s) = true)
  /\ (forall exact spec h out s,
        __init__ debug exact spec h out = Instance s -> stack_inv s = true)
  /\ (forall fuel op s o,
        stack_inv s = true ->
        call_fits debug op s ->
        run_op debug fuel op s = Some o ->
        stack_inv (outcome_state o) = true)
  /\ (forall s,
        stack_inv s = true ->
        exists top,
          py_getitem (_stack s) (-1) = Some top
          /\ decision_state s = Some (snd top)
          /\ forall sym d,
               act_iter debug sym d s = Abort (UnexpectedToken sym) s
               <-> exists row,
                     py_getitem (_action (_spec s)) (snd top) = Some row
                     /\ row !! d = None).
Proof.
  split_and!.
  - intros s. done.
  - intros exact spec h out s H. apply __init___Instance in H as ->. done.
  - intros fuel op s o. apply run_op_stack_inv.
  - intros s Hinv. apply stack_inv_spec in Hinv as (eps & rest & Hst & _).
    destruct (last (_stack s)) as [top|] eqn:Hlast.
    2:{ rewrite Hst in Hlast. apply last_None in Hlast. done. }
    exists top. rewrite py_getitem_top. split; [done|].
    split; [unfold decision_state; by rewrite Hlast|].
    intros sym d. split.
    + intros H. apply act_iter_UnexpectedToken in H as (Hno & _); [|done].
      unfold no_action in Hno. rewrite py_getitem_top, Hlast in Hno.
      destruct (py_getitem (_action _) _) as [row|]; [|done].
      exists row. split; [done|]. by apply bool_decide_eq_true in Hno.
    + intros (row & Hrow & Hd). apply act_iter_no_action.
      unfold no_action. rewrite py_getitem_top, Hlast, Hrow.
      by apply bool_decide_eq_true.
Qed.

(** The call on [')'] after [number] reduces twice and raises; the state it
    leaves still has the bottom entry, under [E] at state 1. *)
Lemma stack_invariant_witness :
  let s := Arith.after true [OpToken Arith.num3] in
  let o := Raised (UnexpectedToken Arith.rpar)
             (Arith.after true [OpToken Arith.num3; OpToken Arith.rpar]) in
  stack_inv s = true
  /\ call_fits true (OpToken Arith.rpar) s
  /\ run_op true 10 (OpToken Arith.rpar) s = Some o
  /\ stack_inv (outcome_state o) = true
  /\ decision_state (outcome_state o) = Some 1.
Proof.
  intros s o.
  assert (Hinv : stack_inv s = true) by (by_vm).
  assert (Hfit : call_fits true (OpToken Arith.rpar) s).
  { intros d Hd. vm_compute in Hd. injection Hd as <-.
    apply (fit_check_sound true 10). by_vm. }
  assert (Hrun : run_op true 10 (OpToken Arith.rpar) s = Some o)
    by (apply (arith_step_raised true [OpToken Arith.num3] (OpToken Arith.rpar));
        by_vm).
  split; [exact Hinv|]. split; [exact Hfit|]. split; [exact Hrun|].
  split; [|by_vm].
  exact (proj1 (proj2 (proj2 (stack_invariant true)))
           10%nat (OpToken Arith.rpar) s o Hinv Hfit Hrun).
Defined.

(** ** Acceptance *)

Section AcceptFacts.

Variable __debug__ : bool.

















End AcceptFacts.





(** ** The driver follows the table automaton *)

Section SimulationFacts.

Variable __debug__ : bool.





End SimulationFacts.

(** ** From the grammar to the tables to the driver *)




Lemma nonterminal_elem_of (G : list Production) p :
  p ∈ G -> nonterminal G (nt_key (lhs p)) = true.
Proof.
  intros Hin. unfold nonterminal. apply existsb_exists.
  exists p. split; [by apply list_elem_of_In|]. by apply Nat.eqb_eq.
Qed.

Lemma walk_length spec form : forall q path,
  walk spec q form = Some path -> length path = length form.
Proof.
  induction form as [|d form IH]; intros q path; simpl.
  - by intros [= <-].
  - destruct (transition spec q d) as [t|]; [|done].
    destruct (walk spec t form) as [path'|] eqn:Hw; [|done].
    intros [= <-]. simpl. f_equal. by eapply IH.
Qed.

Lemma last_cons_default (x q : Z) (path : list Z) :
  List.last (x :: path) q = List.last path x.
Proof.
  revert x q. induction path as [|y path IH]; intros x q; [done|].
  change (List.last (x :: y :: path) q) with (List.last (y :: path) q).
  by rewrite (IH y q), (IH y x).
Qed.

Lemma last_app_default (base path : list Z) (q : Z) :
  last base = Some q -> last (base ++ path) = Some (List.last path q).
Proof.
  revert base q. induction path as [|x path IH]; intros base q Hbase.
  - by rewrite app_nil_r.
  - rewrite cons_middle, app_assoc, last_cons_default.
    apply IH. by rewrite last_snoc.
Qed.

(** The first terminal of what a form derives, or the lookahead when it
    derives nothing, is the head of the form when that is a terminal. *)
Lemma derives_head (G : list Production) F form w a :
  derives G form w ->
  forallb (fun d => negb (nonterminal G d)) F = true ->
  hd a form ∈ F ->
  a ∈ F ->
  hd a w = hd a form.
Proof.
  intros Hder HF Hhd Ha.
  destruct Hder as [|d form w Hd Hder|p form w1 w2 Hin H1 H2]; [done|done|].
  simpl in Hhd. rewrite forallb_forall in HF.
  apply list_elem_of_In, HF in Hhd.
  by rewrite (nonterminal_elem_of _ _ Hin) in Hhd.
Qed.

Section Completeness.

Variable spec : Spec.
Variable F : list Descriptor.
Hypothesis Hclosed : tables_closed spec F = true.

Local Abbreviation G := (productions spec).

Lemma tables_closed_terminals :
  forallb (fun d => negb (nonterminal G d)) F = true.
Proof.
  unfold tables_closed in Hclosed.
  by apply andb_prop in Hclosed as [[H _]%andb_prop _].
Qed.

Lemma tables_closed_at q p g :
  p ∈ G ->
  table_goto spec q (nt_key (lhs p)) = Some g ->
  exists path,
    walk spec q (rhs p) = Some path
    /\ forall b, b ∈ F ->
         reduces_as spec (List.last path q) b p = true
         /\ followed G F (rhs p) b = true.
Proof.
  intros Hin Hgoto.
  unfold tables_closed in Hclosed.
  apply andb_prop in Hclosed as [[_ Hall]%andb_prop _].
  rewrite forallb_forall in Hall.
  assert (Hq : 0 <= q /\ (Z.to_nat q < length (_goto spec))%nat).
  { unfold table_goto in Hgoto. destruct (Z.leb_spec 0 q); [|done].
    split; [done|]. apply lookup_lt_is_Some.
    by destruct (_goto spec !! Z.to_nat q). }
  destruct Hq as [Hq0 Hqlt].
  specialize (Hall (Z.to_nat q)). rewrite in_seq in Hall.
  specialize (Hall ltac:(lia)). rewrite forallb_forall in Hall.
  apply list_elem_of_In, Hall in Hin. rewrite Z2Nat.id in Hin by done.
  unfold closed_at in Hin. rewrite Hgoto in Hin.
  destruct (walk spec q (rhs p)) as [path|]; [|done].
  exists path. split; [done|]. intros b Hb.
  rewrite forallb_forall in Hin. apply list_elem_of_In, Hin in Hb.
  by apply andb_prop in Hb.
Qed.

(** What a form derives is read by the automaton along the walk of the
    form, whatever the stack below and the input after it. *)
Lemma derives_moves form w :
  derives G form w ->
  forall base q a rest path,
    last base = Some q ->
    walk spec q form = Some path ->
    followed G F form a = true ->
    a ∈ F ->
    rtc (lr_move spec) (base, w ++ a :: rest) (base ++ path, a :: rest).
Proof.
  induction 1 as [|d form w Hd Hder IH|p form w1 w2 Hin H1 IH1 H2 IH2];
    intros base q a rest path Hlast Hwalk Hfol Ha.
  - injection Hwalk as <-. by rewrite app_nil_r.
  - simpl in Hwalk, Hfol. unfold transition in Hwalk. rewrite Hd in Hwalk.
    destruct (table_action spec q d) as [[t|?]|] eqn:Hact; try done.
    destruct (walk spec t form) as [path'|] eqn:Hw; [|done].
    injection Hwalk as <-.
    apply andb_prop in Hfol as [_ Hfol].
    eapply rtc_l; [exact (lr_shift spec base q d (w ++ a :: rest) t Hlast Hact)|].
    replace (base ++ t :: path') with ((base ++ [t]) ++ path')
      by (by rewrite <- app_assoc).
    apply (IH _ t); [by rewrite last_snoc|done|done|done].
  - pose proof (nonterminal_elem_of _ _ Hin) as Hnt.
    simpl in Hwalk, Hfol. unfold transition in Hwalk. rewrite Hnt in Hwalk.
    destruct (table_goto spec q (nt_key (lhs p))) as [g|] eqn:Hgoto; [|done].
    destruct (walk spec g form) as [path'|] eqn:Hw; [|done].
    injection Hwalk as <-.
    apply andb_prop in Hfol as [Hnext Hfol]. rewrite Hnt in Hnext.
    apply bool_decide_eq_true in Hnext.
    destruct (tables_closed_at q p g Hin Hgoto) as (pathp & Hwp & Hred).
    pose proof (derives_head _ _ _ _ a H2 tables_closed_terminals Hnext Ha) as Hhead.
    assert (Hb : exists b rest', w2 ++ a :: rest = b :: rest' /\ b ∈ F).
    { destruct w2 as [|x w2]; simpl in *.
      - exists a, rest. done.
      - exists x, (w2 ++ a :: rest). by rewrite Hhead. }
    destruct Hb as (b & rest' & Hsplit & HbF).
    destruct (Hred b HbF) as [Hras Hfolp].
    rewrite <- app_assoc, Hsplit.
    etrans; [by apply (IH1 base q b rest' pathp)|].
    unfold reduces_as in Hras.
    destruct (table_action spec (List.last pathp q) b) as [[?|p']|] eqn:Hact;
      try done.
    apply andb_prop in Hras as [Hlen Hkey].
    apply Nat.eqb_eq in Hlen. apply Nat.eqb_eq in Hkey.
    eapply rtc_l.
    { eapply (lr_reduce spec base pathp _ b rest' p' q g).
      - by apply last_app_default.
      - done.
      - rewrite Hlen. by eapply walk_length.
      - done.
      - by rewrite Hkey. }
    rewrite <- Hsplit.
    replace (base ++ g :: path') with ((base ++ [g]) ++ path')
      by (by rewrite <- app_assoc).
    apply (IH2 _ g); [by rewrite last_snoc|done|done|done].
Qed.

(** Closed tables keep the compiler's contract. *)
Lemma closed_tables_complete : tables_complete spec.
Proof.
  intros descs Hder. unfold valid_sentence in Hder.
  pose proof Hclosed as Hc. unfold tables_closed in Hc.
  apply andb_prop in Hc as [_ Hstart]. unfold start_closed in Hstart.
  apply andb_prop in Hstart as [Hnt Hstart].
  destruct (_sym2spec spec !! EndOfInputT) as [e|] eqn:He; [|done].
  apply andb_prop in Hstart as [HeF Hstart]. apply bool_decide_eq_true in HeF.
  destruct (table_goto spec 0 (_userStartSym spec)) as [q1|] eqn:Hgoto; [|done].
  destruct (table_action spec q1 e) as [[t|?]|] eqn:Hact; try done.
  exists e, [0; q1; t]. split; [done|].
  eapply rtc_r.
  - apply (derives_moves _ _ Hder [0] 0 e [] [q1]); [done| |simpl|done].
    + simpl. unfold transition. by rewrite Hnt, Hgoto.
    + rewrite Hnt. simpl. by rewrite bool_decide_eq_true_2.
  - by apply (lr_shift spec [0; q1] q1 e [] t).
Qed.

End Completeness.



(** *** The arithmetic tables and their grammar *)

Ltac in_list := apply list_elem_of_In; simpl; auto 20.

(** A derivation step, with the string split where the production ends. *)
Lemma derives_by (G : list Production) p form w1 w2 w :
  p ∈ G ->
  w = w1 ++ w2 ->
  derives G (rhs p) w1 ->
  derives G form w2 ->
  derives G (nt_key (lhs p) :: form) w.
Proof. intros Hin -> H1 H2. by apply derives_production. Qed.




(** *** A start handler that returns its operand *)







(** *** The empty production *)

Lemma opt_productions : productions Opt.spec = [Opt.p_empty; Opt.p_bang].
Proof. by_vm. Qed.

(** The scenario of the empty production: the empty string is a sentence
    of [Opt -> | '!'], and [eoi()] right after the start reduces by
    [Opt -> ] with nothing popped, then accepts. *)
Example opt_empty_sentence :
  valid_sentence Opt.spec []
  /\ tables_complete Opt.spec
  /\ exists s3,
       eoi true 5 (Opt.fresh true) = Some (Returned s3)
       /\ _stack s3 = [(mkSymbol 0 EpsilonT, 0); (mkSymbol 2 Opt.OptT, 1)]
       /\ _start s3 = Some [mkSymbol 2 Opt.OptT].
Proof.
  split; [|split].
  - unfold valid_sentence. rewrite opt_productions.
    apply (derives_by _ Opt.p_empty [] [] []); [in_list|done|constructor|constructor].
  - apply (closed_tables_complete Opt.spec [Opt.d_eoi]). by_vm.
  - exists (Arith.state_after (eoi true 5 (Opt.fresh true)) (Opt.fresh true)).
    split; [apply outcome_returned; by_vm|]. split; by_vm.
Qed.

(** * Further properties of the driver *)

(** ** What a call leaves alone *)

Section FrameFacts.

Variable __debug__ : bool.

Lemma _reduce_frame p s :
  _spec (outcome_state (_reduce __debug__ p s)) = _spec s
  /\ _start (outcome_state (_reduce __debug__ p s)) = _start s
  /\ _verbose (outcome_state (_reduce __debug__ p s)) = _verbose s
  /\ stdout (outcome_state (_reduce __debug__ p s)) = stdout s.
Proof.
  unfold _reduce.
  destruct (collect_rhs _ _) as [syms|]; [|done].
  destruct (_production _ p syms (heap s)) as [r h|e h]; [|done].
  cbn [_stack set_heap].
  destruct (pop_n _ _) as [st|]; [|done].
  destruct (py_getitem st (-1)) as [top|]; [|done].
  cbn [_spec set_stack set_heap].
  destruct (py_getitem (_goto _) _) as [row|]; [|done].
  by destruct (row !! _) as [g|].
Qed.

Lemma act_iter_frame sym d s :
  _spec (iter_state (act_iter __debug__ sym d s)) = _spec s
  /\ _start (iter_state (act_iter __debug__ sym d s)) = _start s
  /\ _verbose (iter_state (act_iter __debug__ sym d s)) = _verbose s
  /\ (_verbose s = false ->
      stdout (iter_state (act_iter __debug__ sym d s)) = stdout s).
Proof.
  unfold act_iter.
  destruct (py_getitem (_stack s) (-1)) as [top|]; [|done].
  destruct (py_getitem (_action _) _) as [row|]; [|done].
  destruct (row !! d) as [actions|]; [|done].
  destruct (__debug__ && _); [done|].
  destruct (actions !! 0%nat) as [[t|p]|]; [| |done].
  - destruct (_verbose s) eqn:Hv; by split_and!.
  - set (s1 := if _verbose s then _ else s).
    assert (Hs1 : _spec s1 = _spec s /\ _start s1 = _start s
                  /\ _verbose s1 = _verbose s
                  /\ (_verbose s = false -> stdout s1 = stdout s)).
    { unfold s1. destruct (_verbose s) eqn:Hv; by split_and!. }
    destruct Hs1 as (H1 & H2 & H3 & H4).
    destruct (_reduce_frame p s1) as (R1 & R2 & R3 & R4).
    destruct (_reduce _ p s1) as [s2|e s2]; simpl in *.
    + destruct (_verbose s2) eqn:Hv2; simpl.
      * split_and!; try congruence.
      * split_and!; try congruence. intros Hv. rewrite R4. by apply H4.
    + split_and!; try congruence. intros Hv. rewrite R4. by apply H4.
Qed.

Lemma act_loop_frame (fuel : nat) sym d s o :
  act_loop __debug__ fuel sym d s = Some o ->
  _spec (outcome_state o) = _spec s
  /\ _start (outcome_state o) = _start s
  /\ _verbose (outcome_state o) = _verbose s
  /\ (_verbose s = false -> stdout (outcome_state o) = stdout s).
Proof.
  revert s. induction fuel as [|fuel IH]; intros s; [done|]. simpl.
  destruct (act_iter_frame sym d s) as (H1 & H2 & H3 & H4).
  destruct (act_iter _ sym d s) as [s'|s'|e s']; simpl in *.
  - by intros [= <-].
  - intros H. destruct (IH _ H) as (I1 & I2 & I3 & I4).
    split_and!; try congruence. intros Hv. rewrite I4 by congruence. by apply H4.
  - by intros [= <-].
Qed.

Lemma token_frame (fuel : nat) tok s o :
  token __debug__ fuel tok s = Some o ->
  _spec (outcome_state o) = _spec s
  /\ _start (outcome_state o) = _start s
  /\ _verbose (outcome_state o) = _verbose s
  /\ (_verbose s = false -> stdout (outcome_state o) = stdout s).
Proof.
  unfold token. destruct (_ !! sym_type tok) as [d|]; [|by intros [= <-]].
  rewrite _act_unfold. intros H. apply act_loop_frame in H as (H1 & H2 & H3 & H4).
  assert (He : _spec (act_entry tok s) = _spec s /\ _start (act_entry tok s) = _start s
               /\ _verbose (act_entry tok s) = _verbose s
               /\ (_verbose s = false -> stdout (act_entry tok s) = stdout s)).
  { unfold act_entry. destruct (_verbose s) eqn:Hv; by split_and!. }
  destruct He as (E1 & E2 & E3 & E4).
  split_and!; try congruence.
  intros Hv. rewrite H4 by congruence. by apply E4.
Qed.

Lemma eoi_finish_frame tok s1 :
  _spec (outcome_state (eoi_finish __debug__ tok s1)) = _spec s1
  /\ _verbose (outcome_state (eoi_finish __debug__ tok s1)) = _verbose s1
  /\ (_verbose s1 = false ->
      stdout (outcome_state (eoi_finish __debug__ tok s1)) = stdout s1).
Proof.
  unfold eoi_finish.
  destruct (if __debug__ then _ else _) as [e|]; [done|].
  set (s2 := if _verbose s1 then _ else s1).
  assert (Hs2 : _spec s2 = _spec s1 /\ _verbose s2 = _verbose s1
                /\ (_verbose s1 = false -> stdout s2 = stdout s1)).
  { unfold s2. destruct (_verbose s1) eqn:Hv; by split_and!. }
  destruct (_stack s2) as [|x l]; [done|].
  destruct (py_getitem _ 1) as [slot|]; [|done].
  cbn [_spec set_start set_stack].
  destruct __debug__; [|done].
  destruct (_ !! sym_type slot.1) as [d|]; [|done].
  by destruct (decide _).
Qed.

Lemma eoi_frame (fuel : nat) s o :
  eoi __debug__ fuel s = Some o ->
  _spec (outcome_state o) = _spec s
  /\ _verbose (outcome_state o) = _verbose s
  /\ (_verbose s = false -> stdout (outcome_state o) = stdout s).
Proof.
  rewrite eoi_unfold.
  destruct (token _ fuel _ _) as [[s1|e s1]|] eqn:Ht; [| |done].
  - apply token_frame in Ht as (H1 & _ & H3 & H4).
    intros [= <-].
    match goal with
    | |- context [eoi_finish _ ?t ?x] =>
        destruct (eoi_finish_frame t x) as (F1 & F2 & F3)
    end.
    cbn [outcome_state _spec _verbose stdout set_heap] in H1, H3, H4.
    split; [by rewrite F1|]. split; [by rewrite F2|].
    intros Hv. rewrite F3 by congruence. by apply H4.
  - apply token_frame in Ht as (H1 & _ & H3 & H4). simpl in *.
    intros [= <-]. by split_and!.
Qed.

End FrameFacts.

(** X1 (what the calls never write).  With handlers that act on the symbol
    objects they are given and leave the parser instance alone, [token()],
    [eoi()] and [reset()], returning or raising, leave the specification
    and the verbose flag as they were: the driver's own code assigns the
    flag in [__init__] and the setter only.  [token()] leaves the result as
    it was too, so the result stays [None] from a reset until an
    [eoi()]. *)
Theorem calls_keep_spec_and_flag (debug : bool) (fuel : nat) (op : Op)
    (s : State) (o : Outcome) :
  run_op debug fuel op s = Some o ->
  Lr.spec (outcome_state o) = Lr.spec s
  /\ match op with
     | OpSetVerbose b => Lr.getVerbose (outcome_state o) = b
     | _ => Lr.getVerbose (outcome_state o) = Lr.getVerbose s
     end
  /\ match op with
     | OpToken _ | OpSetVerbose _ => Lr.start (outcome_state o) = Lr.start s
     | OpReset => Lr.start (outcome_state o) = None
     | OpEoi => True
     end.
Proof.
  unfold Lr.spec, Lr.getVerbose, Lr.start.
  destruct op as [tok| | |b]; simpl.
  - intros H. apply token_frame in H as (H1 & H2 & H3 & _). done.
  - intros H. apply eoi_frame in H as (H1 & H3 & _). done.
  - by intros [= <-].
  - by intros [= <-].
Qed.

(** The call on [')'] after [number] reduces twice and raises: the result
    is still [None], the flag and the tables are untouched. *)
Lemma calls_keep_spec_and_flag_witness :
  let s := Arith.after true [OpToken Arith.num3] in
  let o := Raised (UnexpectedToken Arith.rpar)
             (Arith.after true [OpToken Arith.num3; OpToken Arith.rpar]) in
  run_op true 10 (OpToken Arith.rpar) s = Some o
  /\ Lr.start s = None
  /\ Lr.spec (outcome_state o) = Lr.spec s
  /\ Lr.getVerbose (outcome_state o) = Lr.getVerbose s
  /\ Lr.start (outcome_state o) = Lr.start s.
Proof.
  intros s o.
  assert (H : run_op true 10 (OpToken Arith.rpar) s = Some o)
    by (apply (arith_step_raised true [OpToken Arith.num3] (OpToken Arith.rpar));
        by_vm).
  split; [exact H|]. split; [reflexivity|].
  exact (calls_keep_spec_and_flag true 10 (OpToken Arith.rpar) s o H).
Defined.

(** X2 (no trace unless asked).  With handlers that act on the symbol
    objects they are given, neither printing nor touching the parser
    instance: with the verbose flag off, [token()], [eoi()] and [reset()]
    print nothing, whether they return or raise; every [print] of the
    driver is under [if self._verbose]. *)
Theorem quiet_calls_print_nothing (debug : bool) (fuel : nat) (op : Op)
    (s : State) (o : Outcome) :
  Lr.getVerbose s = false ->
  (forall b, op <> OpSetVerbose b) ->
  run_op debug fuel op s = Some o ->
  stdout (outcome_state o) = stdout s.
Proof.
  unfold Lr.getVerbose. intros Hv Hop.
  destruct op as [tok| | |b]; simpl.
  - intros H. apply token_frame in H as (_ & _ & _ & H4). by apply H4.
  - intros H. apply eoi_frame in H as (_ & _ & H4). by apply H4.
  - by intros [= <-].
  - by destruct (Hop b).
Qed.

Lemma quiet_calls_print_nothing_witness :
  let s := Arith.after true [OpToken Arith.num3; OpToken Arith.plus; OpToken Arith.num4] in
  let o := Returned
             (Arith.after true
                [OpToken Arith.num3; OpToken Arith.plus; OpToken Arith.num4; OpEoi]) in
  Lr.getVerbose s = false
  /\ run_op true 10 OpEoi s = Some o
  /\ stdout (outcome_state o) = stdout s.
Proof.
  intros s o.
  assert (H : run_op true 10 OpEoi s = Some o)
    by (apply (arith_step_returned true
                 [OpToken Arith.num3; OpToken Arith.plus; OpToken Arith.num4] OpEoi);
        by_vm).
  split; [reflexivity|]. split; [exact H|].
  apply (quiet_calls_print_nothing true 10 OpEoi s o); [reflexivity| |exact H].
  intros b. discriminate.
Defined.

(** ** How a reduction fails *)

Lemma collect_rhs_app (l : list (Symbol * Z)) (i1 i2 : list Z) :
  collect_rhs l (i1 ++ i2)
  = match collect_rhs l i1, collect_rhs l i2 with
    | Some a, Some b => Some (a ++ b)
    | _, _ => None
    end.
Proof.
  unfold collect_rhs. induction i1 as [|i i1 IH]; simpl.
  - by destruct (mapM _ i2).
  - destruct (fst <$> py_getitem l i) as [x|]; simpl; [|done].
    rewrite IH. destruct (mapM _ i1); simpl; [|done].
    by destruct (mapM _ i2).
Qed.

(** A window below index 0 is read from the end of the list. *)
Lemma collect_rhs_wrap_window (l : list (Symbol * Z)) (a k : nat) :
  (a + k <= length l)%nat ->
  collect_rhs l (seqZ (Z.of_nat a - Z.of_nat (length l)) (Z.of_nat k))
  = Some (fst <$> take k (drop a l)).
Proof.
  unfold collect_rhs. revert a. induction k as [|k IH]; intros a H.
  - done.
  - rewrite seqZ_cons by lia.
    replace (Z.succ (Z.of_nat a - Z.of_nat (length l)))
      with (Z.of_nat (S a) - Z.of_nat (length l)) by lia.
    replace (Z.pred (Z.of_nat (S k))) with (Z.of_nat k) by lia.
    destruct (lookup_lt_is_Some_2 l a) as [x Hx]; [lia|].
    cbn [mapM].
    assert (Hget : py_getitem l (Z.of_nat a - Z.of_nat (length l)) = Some x).
    { unfold py_getitem.
      destruct (Z.leb_spec 0 (Z.of_nat a - Z.of_nat (length l))); [lia|].
      destruct (Z.leb_spec 0 (Z.of_nat (length l)
                              + (Z.of_nat a - Z.of_nat (length l)))); [|lia].
      rewrite <- Hx. f_equal. lia. }
    rewrite Hget. simpl. rewrite IH by lia. simpl.
    rewrite (drop_S l x a Hx). done.
Qed.

Lemma collect_rhs_read (l : list (Symbol * Z)) (n : nat) :
  collect_rhs l (py_range (Z.of_nat (length l) - Z.of_nat n) (Z.of_nat (length l)))
  = if (n <=? 2 * length l)%nat then Some (rhs_read l n) else None.
Proof.
  unfold rhs_read.
  destruct (Nat.leb_spec n (length l)) as [Hle|Hlt].
  - destruct (Nat.leb_spec n (2 * length l)); [|lia]. by apply collect_rhs_top.
  - unfold py_range.
    replace (Z.of_nat (length l) - (Z.of_nat (length l) - Z.of_nat n))
      with (Z.of_nat n) by lia.
    destruct (Nat.leb_spec n (2 * length l)) as [Hle2|Hlt2].
    + replace (Z.of_nat n) with (Z.of_nat (n - length l) + Z.of_nat (length l))
        at 2 by lia.
      rewrite seqZ_app by lia. rewrite collect_rhs_app.
      replace (Z.of_nat (length l) - Z.of_nat n)
        with (Z.of_nat (2 * length l - n) - Z.of_nat (length l)) by lia.
      rewrite collect_rhs_wrap_window by lia.
      replace (Z.of_nat (2 * length l - n) - Z.of_nat (length l)
               + Z.of_nat (n - length l)) with (Z.of_nat 0) by lia.
      rewrite collect_rhs_window by (simpl; lia).
      rewrite drop_0, firstn_all, fmap_app.
      rewrite (take_ge (drop (2 * length l - n) l)); [done|].
      rewrite length_drop. lia.
    + rewrite seqZ_cons by lia. unfold collect_rhs. cbn [mapM].
      unfold py_getitem.
      destruct (Z.leb_spec 0 (Z.of_nat (length l) - Z.of_nat n)); [lia|].
      destruct (Z.leb_spec 0 (Z.of_nat (length l)
                              + (Z.of_nat (length l) - Z.of_nat n))); [lia|].
      done.
Qed.

Lemma rhs_read_length (l : list (Symbol * Z)) (n : nat) :
  (n <= 2 * length l)%nat -> length (rhs_read l n) = n.
Proof.
  intros H. unfold rhs_read. rewrite length_fmap.
  destruct (Nat.leb_spec n (length l)).
  - rewrite length_drop. lia.
  - rewrite length_app, length_drop. lia.
Qed.

(** With as many symbols as the right-hand side has, the arity assertion
    of [_production] passes. *)
Lemma _production_arity (debug : bool) (p : Production) (syms : list Symbol)
    (h : Store) :
  length syms = length (rhs p) ->
  _production debug p syms h
  = match method p (new_object (nontermType (lhs p)) h).2
                   (new_object (nontermType (lhs p)) h).1 syms with
    | HRaise h2 => ProdRaised HandlerException h2
    | HReturn h2 r => ProdOk (default (new_object (nontermType (lhs p)) h).1 r) h2
    end.
Proof.
  intros Hlen. unfold _production. simpl. rewrite Hlen, Nat.eqb_refl, andb_false_r.
  destruct (method p _ _ syms) as [h2 [r|]|h2]; done.
Qed.

(** X3 (how a reduction fails).  The handler is taken to leave the parser
    instance alone.  A reduction that raises has raised [IndexError],
    [KeyError] or the handler's exception, never [AssertionError]: the arity
    assertion of [_production] cannot fail, since the symbols are read
    with the length of the right-hand side.  [IndexError] with nothing
    done means the right-hand side is more than twice as long as the
    stack.  Up to twice the length the handler is called, on the symbols
    [rhs_read] gives, read around the end of the list when the stack is
    too short.  A handler that raises leaves the stack as it was.  After a
    handler that returned, the [n] entries are popped and nothing is
    pushed: [KeyError] is a goto row without the left-hand side,
    [IndexError] a stack popped empty or a goto row that does not
    exist. *)
Theorem reduce_raises (debug : bool) (p : Production) (s s' : State) (e : Exn) :
  _reduce debug p s = Raised e s' ->
  let n := length (rhs p) in
  let len := length (_stack s) in
  let called := method p (new_object (nontermType (lhs p)) (heap s)).2
                         (new_object (nontermType (lhs p)) (heap s)).1
                         (rhs_read (_stack s) n) in
  match e with
  | IndexError =>
      ((2 * len < n)%nat /\ s' = s)
      \/ ((n <= 2 * len)%nat
          /\ (exists ret, called = HReturn (heap s') ret)
          /\ _stack s' = take (len - n) (_stack s)
          /\ ((len <= n)%nat
              \/ exists top,
                   last (_stack s') = Some top
                   /\ py_getitem (_goto (_spec s)) (snd top) = None))
  | KeyError =>
      (n < len)%nat
      /\ (exists ret, called = HReturn (heap s') ret)
      /\ _stack s' = take (len - n) (_stack s)
      /\ exists top row,
           last (_stack s') = Some top
           /\ py_getitem (_goto (_spec s)) (snd top) = Some row
           /\ row !! nt_key (lhs p) = None
  | HandlerException =>
      (n <= 2 * len)%nat /\ called = HRaise (heap s') /\ _stack s' = _stack s
  | AssertionError | UnexpectedToken _ => False
  end.
Proof.
  intros H n len called. unfold _reduce in H.
  rewrite collect_rhs_read in H. fold n len in H.
  destruct (Nat.leb_spec n (2 * len)) as [Hle|Hlt].
  2:{ injection H as <- <-. left. by split. }
  rewrite _production_arity in H by (by apply rhs_read_length).
  fold called in H.
  destruct called as [h2 ret|h2] eqn:Hcall.
  2:{ injection H as <- <-. by split_and!. }
  cbn [_stack set_heap _spec heap] in H.
  destruct (pop_n n (_stack s)) as [st|] eqn:Hpop.
  2:{ apply pop_n_None in Hpop. injection H as <- <-. right.
      cbn [_stack set_stack heap set_heap]. split; [done|]. split; [by exists ret|].
      fold len. replace (len - n)%nat with 0%nat by lia.
      split; [done|]. left. lia. }
  apply pop_n_Some in Hpop as [Hn ->]. fold len in H, Hn.
  cbn [_stack set_stack _spec] in H. rewrite py_getitem_top in H.
  set (st := take (len - n) (_stack s)) in *.
  destruct (last st) as [top|] eqn:Hlast.
  2:{ injection H as <- <-. right. cbn [_stack set_stack heap set_heap].
      split; [done|]. split; [by exists ret|]. split; [done|]. left.
      apply last_None in Hlast. unfold st in Hlast.
      apply (f_equal length) in Hlast. rewrite length_take in Hlast.
      simpl in Hlast. fold len in Hlast. lia. }
  assert (Hfit : (n < len)%nat).
  { destruct (decide (n < len)%nat) as [|Hge]; [done|].
    unfold st in Hlast. replace (len - n)%nat with 0%nat in Hlast by lia.
    done. }
  change (_spec (set_heap h2 s)) with (_spec s) in H.
  destruct (py_getitem (_goto (_spec s)) (snd top)) as [row|] eqn:Hrow.
  2:{ injection H as <- <-. right. cbn [_stack set_stack heap set_heap].
      split; [done|]. split; [by exists ret|]. split; [done|]. right.
      by exists top. }
  destruct (row !! nt_key (lhs p)) as [g|] eqn:Hg; [done|].
  injection H as <- <-. cbn [_stack set_stack heap set_heap].
  split; [done|]. split; [by exists ret|]. split; [done|]. by exists top, row.
Qed.

Lemma reduce_raised (debug : bool) (p : Production) (s : State) (e : Exn) :
  outcome_kind (Some (_reduce debug p s)) = Some (Some e) ->
  _reduce debug p s = Raised e (Arith.reduced debug p s).
Proof. unfold Arith.reduced. destruct (_reduce debug p s); simpl; congruence. Qed.

(** A production of three symbols on a stack of two entries: [number] on
    the bottom entry.  The right-hand side is read as [number], bottom,
    [number]; the handler of [E -> E '+' T] adds 3 and 3 into a new [E];
    the third pop finds the stack empty. *)
Lemma reduce_raises_witness :
  let s := Arith.after true [OpToken Arith.num3] in
  let s' := Arith.reduced true Arith.p_E_plus s in
  _reduce true Arith.p_E_plus s = Raised IndexError s'
  /\ _stack s = [(mkSymbol 5 EpsilonT, 0); (Arith.num3, 3)]
  /\ rhs_read (_stack s) 3 = [Arith.num3; mkSymbol 5 EpsilonT; Arith.num3]
  /\ Arith.value (heap s') (mkSymbol 6 Arith.ET) = 6
  /\ _stack s' = []
  /\ (((2 * 2 < 3)%nat /\ s' = s)
      \/ ((3 <= 2 * 2)%nat
          /\ (exists ret,
                method Arith.p_E_plus (new_object Arith.ET (heap s)).2
                       (new_object Arith.ET (heap s)).1 (rhs_read (_stack s) 3)
                = HReturn (heap s') ret)
          /\ _stack s' = take (2 - 3) (_stack s)
          /\ ((2 <= 3)%nat
              \/ exists top,
                   last (_stack s') = Some top
                   /\ py_getitem (_goto (_spec s)) (snd top) = None))).
Proof.
  intros s s'.
  assert (H : _reduce true Arith.p_E_plus s = Raised IndexError s')
    by (apply reduce_raised; by_vm).
  split; [exact H|]. split; [by_vm|]. split; [by_vm|]. split; [by_vm|].
  split; [by_vm|].
  exact (reduce_raises true Arith.p_E_plus s s' IndexError H).
Defined.

(** ** When the stack invariant is lost *)

Section LostStack.

Variable __debug__ : bool.






End LostStack.



(** ** What [eoi()] makes of an accepted sentinel *)

Lemma token_Returned_top (debug : bool) (fuel : nat) tok s s' :
  token debug fuel tok s = Some (Returned s') ->
  exists rest t, _stack s' = rest ++ [(tok, t)].
Proof.
  unfold token. destruct (_ !! sym_type tok) as [d|]; [|done].
  rewrite _act_unfold. intros H.
  apply act_loop_Returned in H as (s1 & _ & Hi).
  apply act_iter_Break in Hi as [t Ht]. by exists (_stack s1), t.
Qed.

(** X5 (what [eoi()] makes of an accepted sentinel).  When the loop has
    shifted the sentinel it is on top of the stack: the check [eoi()] makes
    of it cannot fail.  The sentinel is then popped, whatever follows.
    With fewer than two entries left [eoi()] raises [IndexError] and the
    result is as the loop left it.  Otherwise the result is the symbol of slot 1,
    counted from the bottom, and it is assigned before its descriptor is
    checked: with assertions enabled a class that is not registered gives
    [KeyError] and a descriptor other than the start descriptor
    [AssertionError], the result already set; with assertions stripped
    [eoi()] returns. *)
Theorem eoi_outcome (debug : bool) (fuel : nat) (s s1 : State) (o : Outcome) :
  token debug fuel (new_object EndOfInputT (heap s)).1
        (set_heap (new_object EndOfInputT (heap s)).2 s) = Some (Returned s1) ->
  eoi debug fuel s = Some o ->
  exists rest t,
    _stack s1 = rest ++ [((new_object EndOfInputT (heap s)).1, t)]
    /\ _stack (outcome_state o) = rest
    /\ match rest !! 1%nat with
       | None => (exists s', o = Raised IndexError s')
                 /\ _start (outcome_state o) = _start s1
       | Some slot =>
           _start (outcome_state o) = Some [slot.1]
           /\ match o with
              | Returned _ =>
                  debug = true ->
                  _sym2spec (_spec s1) !! sym_type slot.1
                  = Some (_userStartSym (_spec s1))
              | Raised e _ =>
                  debug = true
                  /\ match _sym2spec (_spec s1) !! sym_type slot.1 with
                     | None => e = KeyError
                     | Some d => e = AssertionError /\ d <> _userStartSym (_spec s1)
                     end
              end
       end.
Proof.
  intros Ht H. rewrite eoi_unfold, Ht in H. injection H as H.
  set (tok := (new_object EndOfInputT (heap s)).1) in *.
  destruct (token_Returned_top _ _ _ _ _ Ht) as (rest & t & Hst).
  exists rest, t. split; [done|].
  unfold eoi_finish in H. rewrite Hst, py_getitem_top, last_snoc in H.
  cbn [fst] in H. rewrite decide_True in H by done.
  assert (Hif : (if debug then @None Exn else None) = None) by (by destruct debug).
  rewrite Hif in H. clear Hif.
  set (s2 := if _verbose s1 then _ else s1) in H.
  assert (Hs2 : _stack s2 = rest ++ [(tok, t)] /\ _spec s2 = _spec s1
                /\ _start s2 = _start s1).
  { unfold s2. destruct (_verbose s1); simpl; by rewrite Hst. }
  destruct Hs2 as (Hk & Hp & Hr). rewrite Hk in H. clear Hst Hk Ht.
  destruct (rest ++ [(tok, t)]) as [|y l] eqn:E; [by destruct rest|].
  rewrite <- E, removelast_last in H. clear E y l.
  cbn [_stack set_stack] in H.
  change 1 with (Z.of_nat 1) in H. rewrite py_getitem_nonneg in H.
  destruct (rest !! 1%nat) as [slot|] eqn:Hslot.
  2:{ subst o. simpl. split; [done|]. split; [by eexists|done]. }
  cbn [_spec set_start set_stack] in H. rewrite Hp in H.
  destruct debug.
  - destruct (_sym2spec (_spec s1) !! sym_type slot.1) as [d|] eqn:Hd.
    + destruct (decide (d = _userStartSym (_spec s1))) as [->|Hne];
        subst o; simpl; by split_and!.
    + subst o. simpl. by split_and!.
  - subst o. simpl. by split_and!.
Qed.

(** The start production that passes its operand on: the sentinel is
    accepted over a [T], which [eoi()] stores as the result before the
    assertion on its descriptor fails. *)
Lemma eoi_outcome_witness :
  let s := feed_state (feed true 10 [Arith.num3] (reset (PassThrough.fresh true)))
             (PassThrough.fresh true) in
  let tok := (new_object EndOfInputT (heap s)).1 in
  let s0 := set_heap (new_object EndOfInputT (heap s)).2 s in
  let s1 := Arith.state_after (token true 10 tok s0) s0 in
  let o := Raised AssertionError (Arith.state_after (eoi true 10 s) s) in
  token true 10 tok s0 = Some (Returned s1)
  /\ eoi true 10 s = Some o
  /\ _start s1 = None
  /\ _start (outcome_state o) = Some [mkSymbol 8 Arith.TT]
  /\ exists rest t,
       _stack s1 = rest ++ [(tok, t)]
       /\ _stack (outcome_state o) = rest
       /\ match rest !! 1%nat with
          | None => (exists s', o = Raised IndexError s')
                    /\ _start (outcome_state o) = _start s1
          | Some slot =>
              _start (outcome_state o) = Some [slot.1]
              /\ (true = true
                  /\ match _sym2spec (_spec s1) !! sym_type slot.1 with
                     | None => AssertionError = KeyError
                     | Some d =>
                         AssertionError = AssertionError
                         /\ d <> _userStartSym (_spec s1)
                     end)
          end.
Proof.
  intros s tok s0 s1 o.
  assert (Ht : token true 10 tok s0 = Some (Returned s1))
    by (apply outcome_returned; by_vm).
  assert (Hk : outcome_kind (eoi true 10 s) = Some (Some AssertionError)) by (by_vm).
  assert (H : eoi true 10 s = Some o)
    by exact (outcome_raised (eoi true 10 s) AssertionError s Hk).
  split; [exact Ht|]. split; [exact H|]. split; [by_vm|]. split; [by_vm|].
  exact (eoi_outcome true 10 s s1 o Ht H).
Defined.
